(** * quicknote: the storage, query and mutation layer of [ornekler/2-python.py]

    A shallow embedding of the note manager and the proofs of its
    specification.  Python values are modelled as follows.

    - [str] is a Rocq [string] holding the UTF-8 encoding of the text: equality
      and the lexicographic order of the bytes are then equality and the
      code-point order of Python strings.
    - [int] is [Z].
    - The dataclass [Note] is a record whose fields have the annotated types
      ([tags] may be [None]).  Python does not check annotations: a store whose
      records carry values of other types is outside this model.
      [Note_of_kwargs] flags the place with [FieldType], and the theorems about
      the loaded notes are stated for the stores that never reach it
      ([typed_store]).
    - [re] and [json] are libraries: the model takes them as interfaces
      ([ReLib], [JsonLib]); two small reference instances make the concrete
      examples computable.
    - The home directory, the clock and the random identifier are inputs. *)

From Stdlib Require Import ZArith Lia Ascii String List Sorted Permutation DecimalString.
From stdpp Require Import base option list gmap strings sorting.

Set Warnings "-register-all,-clear-no-such-hyp".

Local Open Scope Z_scope.
Local Open Scope string_scope.

(** ** Exceptions and results *)

(** The causes of the [TypeError]s the storage layer can meet. *)
Inductive type_error :=
  | NotIterable                 (* [for n in data] over a number, bool or None *)
  | NotMapping                  (* keyword expansion of a value that is not a dict *)
  | Missing (field : string)    (* a required argument is absent *)
  | Unexpected (key : string)   (* an unknown keyword argument *)
  | FieldType (field : string). (* a value outside the annotated type: model boundary *)

Inductive exn :=
  | TypeError (e : type_error)
  | JSONDecodeError             (* [read_text] or [json.loads] raised *)
  | ReError (pattern : string). (* [re.error]: the pattern does not compile *)

Inductive result (A : Type) :=
  | Ok (a : A)
  | Raise (e : exn).
Arguments Ok {A} a.
Arguments Raise {A} e.

Definition rbind {A B} (m : result A) (f : A -> result B) : result B :=
  match m with
  | Ok a => f a
  | Raise e => Raise e
  end.

Notation "'do' x <- m ; k" := (rbind m (fun x => k))
  (at level 10, x name, m at level 100, k at level 200).

Fixpoint mapR {A B} (f : A -> result B) (l : list A) : result (list B) :=
  match l with
  | [] => Ok []
  | x :: l' => do y <- f x; do ys <- mapR f l'; Ok (y :: ys)
  end.

(** A list comprehension [[x for x in l if f(x)]] whose condition may raise. *)
Fixpoint filterR {A} (f : A -> result bool) (l : list A) : result (list A) :=
  match l with
  | [] => Ok []
  | x :: l' =>
      do b <- f x; do ys <- filterR f l'; Ok (if b : bool then x :: ys else ys)
  end.

(** ** Strings *)

Definition bytes (l : list N) : string :=
  string_of_list_ascii (map ascii_of_N l).

(** The characters [str.strip()] removes (those with [str.isspace()]), UTF-8. *)
Definition whitespace : list string :=
  map bytes
    [ [9]; [10]; [11]; [12]; [13]; [28]; [29]; [30]; [31]; [32];
      [194; 133]; [194; 160]; [225; 154; 128];
      [226; 128; 128]; [226; 128; 129]; [226; 128; 130]; [226; 128; 131];
      [226; 128; 132]; [226; 128; 133]; [226; 128; 134]; [226; 128; 135];
      [226; 128; 136]; [226; 128; 137]; [226; 128; 138];
      [226; 128; 168]; [226; 128; 169]; [226; 128; 175];
      [226; 129; 159]; [227; 128; 128] ]%N.

Fixpoint drop_string (n : nat) (s : string) : string :=
  match n, s with
  | S n', String _ s' => drop_string n' s'
  | _, _ => s
  end.

(** The rest of [s] after one leading member of [ws], if there is one. *)
Definition strip1 (ws : list string) (s : string) : option string :=
  match List.find (fun w => String.prefix w s) ws with
  | Some w => Some (drop_string (String.length w) s)
  | None => None
  end.

Fixpoint lstrip_go (ws : list string) (fuel : nat) (s : string) : string :=
  match fuel with
  | O => s
  | S fuel' =>
      match strip1 ws s with
      | Some s' => lstrip_go ws fuel' s'
      | None => s
      end
  end.

Definition lstrip (s : string) : string :=
  lstrip_go whitespace (String.length s) s.

Definition rstrip (s : string) : string :=
  String.rev (lstrip_go (map String.rev whitespace) (String.length s) (String.rev s)).

Definition strip (s : string) : string := rstrip (lstrip s).

(** [s.split(sep)] for a one-character separator. *)
Fixpoint split_go (sep : ascii) (cur : string) (s : string) : list string :=
  match s with
  | "" => [String.rev cur]
  | String a s' =>
      if Ascii.eqb a sep then String.rev cur :: split_go sep "" s'
      else split_go sep (String a cur) s'
  end.

Definition split (sep : ascii) (s : string) : list string := split_go sep "" s.

Definition lower (a : ascii) : ascii :=
  let c := N_of_ascii a in
  if ((65 <=? c) && (c <=? 90))%N then ascii_of_N (c + 32) else a.

Fixpoint lowercase (s : string) : string :=
  match s with
  | "" => ""
  | String a s' => String (lower a) (lowercase s')
  end.

Fixpoint string_forallb (f : ascii -> bool) (s : string) : bool :=
  match s with
  | "" => true
  | String a s' => f a && string_forallb f s'
  end.

(** [p] occurs in [s] *)
Fixpoint contains (p s : string) : bool :=
  String.prefix p s ||
  match s with
  | "" => false
  | String _ s' => contains p s'
  end.

(** [p] occurs in [s], ASCII letters compared without case. *)
Definition icontains (p s : string) : bool := contains (lowercase p) (lowercase s).

(** A pattern of ASCII letters, digits and spaces: it has no metacharacter. *)
Definition plain_char (a : ascii) : bool :=
  let c := N_of_ascii a in
  ((c =? 32) || (48 <=? c) && (c <=? 57) || (65 <=? c) && (c <=? 90)
   || (97 <=? c) && (c <=? 122))%N.

Definition plain (p : string) : bool :=
  negb (String.eqb p "") && string_forallb plain_char p.

Definition ascii_only (s : string) : bool :=
  string_forallb (fun a => (N_of_ascii a <? 128)%N) s.

(** ** JSON documents, as [json.loads] returns them *)

Inductive json :=
  | JNull
  | JBool (b : bool)
  | JInt (z : Z)
  | JFloat (literal : string)
  | JStr (s : string)
  | JArr (items : list json)
  | JObj (members : list (string * json)).

(** ** The libraries the program calls *)

(** [re.compile(pattern, re.IGNORECASE)] and [rx.search(s)] (as a boolean). *)
Class ReLib := {
  regex : Type;
  re_compile : string -> option regex;   (* [None]: [re.error] *)
  re_search : regex -> string -> bool
}.

(** What the documentation of [re] says of a pattern without metacharacters,
    compiled with [re.IGNORECASE] and searched in ASCII text: it is found
    where it occurs, letters compared without case. *)
Definition re_literal_law `{ReLib} : Prop :=
  forall p, plain p = true ->
    exists rx, re_compile p = Some rx /\
      forall s, ascii_only s = true -> re_search rx s = icontains p s.

(** [json.dumps(v, ensure_ascii=False, indent=2)] encoded as UTF-8, and
    UTF-8 decoding followed by [json.loads]. *)
Class JsonLib := {
  json_dumps : json -> string;
  json_loads : string -> option json      (* [None]: the text is rejected *)
}.

(** ** Model *)

Record Note := mkNote {
  id : string;
  text : string;
  created_at : string;  (* ISO *)
  done : bool;
  tags : option (list string);
  priority : Z          (* 0-3 *)
}.

#[global] Instance Note_eq_dec : EqDecision Note.
Proof. solve_decision. Defined.

(** [self.tags or []] *)
Definition tags_or_empty (n : Note) : list string := default [] (tags n).

Definition matches `{ReLib} (self : Note) (pattern : string) : result bool :=
  if decide (pattern = "") then Ok true
  else
    match re_compile pattern with
    | None => Raise (ReError pattern)
    | Some rx =>
        Ok (re_search rx (text self) || existsb (re_search rx) (tags_or_empty self))
    end.

(** [dict.get(k)] on a dict kept as its items in insertion order. *)
Definition dict_get {V} (k : string) (d : list (string * V)) : option V :=
  snd <$> List.find (fun kv => String.eqb kv.1 k) d.

(** [d[k] = v]: an existing key keeps its place, a new one goes last. *)
Fixpoint dict_set {V} (k : string) (v : V) (d : list (string * V)) : list (string * V) :=
  match d with
  | [] => [(k, v)]
  | (k', v') :: d' =>
      if String.eqb k' k then (k, v) :: d' else (k', v') :: dict_set k v d'
  end.

Definition field_names : list string :=
  ["id"; "text"; "created_at"; "done"; "tags"; "priority"].

Definition as_str (k : string) (v : json) : result string :=
  match v with JStr s => Ok s | _ => Raise (TypeError (FieldType k)) end.

Definition as_bool (k : string) (v : json) : result bool :=
  match v with JBool b => Ok b | _ => Raise (TypeError (FieldType k)) end.

Definition as_int (k : string) (v : json) : result Z :=
  match v with JInt z => Ok z | _ => Raise (TypeError (FieldType k)) end.

Definition as_tags (k : string) (v : json) : result (option (list string)) :=
  match v with
  | JNull => Ok None
  | JArr l => do ts <- mapR (as_str k) l; Ok (Some ts)
  | _ => Raise (TypeError (FieldType k))
  end.

Definition required {A} (conv : string -> json -> result A)
    (k : string) (kw : list (string * json)) : result A :=
  match dict_get k kw with
  | Some v => conv k v
  | None => Raise (TypeError (Missing k))
  end.

Definition optional {A} (conv : string -> json -> result A)
    (k : string) (dflt : A) (kw : list (string * json)) : result A :=
  match dict_get k kw with
  | Some v => conv k v
  | None => Ok dflt
  end.

(** The generated [Note.__init__] applied to keyword arguments: [id], [text]
    and [created_at] are required, the others default to [False], [None], [0];
    any other keyword is a [TypeError]. *)
Definition Note_of_kwargs (kw : list (string * json)) : result Note :=
  match List.find (fun k => negb (existsb (String.eqb k) field_names)) kw.*1 with
  | Some k => Raise (TypeError (Unexpected k))
  | None =>
      do i <- required as_str "id" kw;
      do t <- required as_str "text" kw;
      do c <- required as_str "created_at" kw;
      do d <- optional as_bool "done" false kw;
      do g <- optional as_tags "tags" None kw;
      do p <- optional as_int "priority" 0 kw;
      Ok (mkNote i t c d g p)
  end.

(** [Note] built from the keyword expansion of [n]. *)
Definition Note_of_json (n : json) : result Note :=
  match n with
  | JObj kw => Note_of_kwargs kw
  | _ => Raise (TypeError NotMapping)
  end.

(** [[Note] built from each [n] in [data]]: a list gives its items; a dict
    gives its keys and a str its characters, none of which is a mapping. *)
Definition Notes_of_json (data : json) : result (list Note) :=
  match data with
  | JArr l => mapR Note_of_json l
  | JObj [] | JStr "" => Ok []
  | JObj _ | JStr _ => Raise (TypeError NotMapping)
  | JNull | JBool _ | JInt _ | JFloat _ => Raise (TypeError NotIterable)
  end.

(** [dataclasses.asdict] *)
Definition asdict (n : Note) : json :=
  JObj [ ("id", JStr (id n)); ("text", JStr (text n));
         ("created_at", JStr (created_at n)); ("done", JBool (done n));
         ("tags", match tags n with
                  | None => JNull
                  | Some ts => JArr (map JStr ts)
                  end);
         ("priority", JInt (priority n)) ].

(** ** Paths and the file system *)

(** A path is a directory and a file name. *)
Abbreviation path := (string * string)%type.

Fixpoint rfind (c : ascii) (s : string) : option nat :=
  match s with
  | "" => None
  | String a s' =>
      match rfind c s' with
      | Some i => Some (S i)
      | None => if Ascii.eqb a c then Some O else None
      end
  end.

(** [PurePath.suffix] of a file name *)
Definition suffix (name : string) : string :=
  match rfind "." name with
  | Some i =>
      if bool_decide (0 < i < String.length name - 1)%nat
      then drop_string i name else ""
  | None => ""
  end.

(** [PurePath.with_suffix] *)
Definition with_suffix (p : path) (suf : string) : path :=
  let name := p.2 in
  let old := suffix name in
  (p.1, substring 0 (String.length name - String.length old) name ++ suf).

Class HomeDir := home : string.

Definition NOTES_FILE `{HomeDir} : path := (home, ".quicknotes.json").

Inductive stderr_line :=
  | hata (e : exn)      (* "[hata] Not dosyasi okunamadi: ..." *)
  | usage_error.        (* the argument parser's message *)

Record World := mkWorld {
  files : gmap path string;
  stderr : list stderr_line
}.

(** The file operations [save_notes] performs, in order. *)
Inductive fs_op :=
  | WriteText (p : path) (data : string)
  | Replace (src dst : path).

Definition fs_step (op : fs_op) (fs : gmap path string) : gmap path string :=
  match op with
  | WriteText p data => <[p := data]> fs
  | Replace src dst =>
      match fs !! src with
      | Some data => <[dst := data]> (delete src fs)
      | None => fs
      end
  end.

Definition fs_run (ops : list fs_op) (fs : gmap path string) : gmap path string :=
  foldl (fun fs op => fs_step op fs) fs ops.


(** ** Programs over the world *)

Definition IO (A : Type) : Type := World -> A * World.

Definition io_ret {A} (a : A) : IO A := fun w => (a, w).

Definition io_bind {A B} (m : IO A) (f : A -> IO B) : IO B :=
  fun w => let (a, w') := m w in f a w'.

#[global] Instance io_mret : MRet IO := @io_ret.
#[global] Instance io_mbind : MBind IO := fun A B f m => io_bind m f.

Definition read_file (p : path) : IO (option string) :=
  fun w => (files w !! p, w).

Definition print_stderr (l : stderr_line) : IO unit :=
  fun w => (tt, mkWorld (files w) (stderr w ++ [l])%list).

Definition fs_do (ops : list fs_op) : IO unit :=
  fun w => (tt, mkWorld (fs_run ops (files w)) (stderr w)).

(** ** Storage *)

Section Program.
Context `{ReLib} `{JsonLib} `{HomeDir}.

Definition parse_notes (data : string) : result (list Note) :=
  match json_loads data with
  | None => Raise JSONDecodeError
  | Some d => Notes_of_json d
  end.

Definition load_notes : IO (list Note) :=
  f ← read_file NOTES_FILE;
  match f with
  | None => mret []
  | Some data =>
      match parse_notes data with
      | Ok notes => mret notes
      | Raise e => print_stderr (hata e);; mret []
      end
  end.

Definition dump_notes (notes : list Note) : string :=
  json_dumps (JArr (map asdict notes)).

Definition save_ops (notes : list Note) : list fs_op :=
  let tmp := with_suffix NOTES_FILE ".tmp" in
  [ WriteText tmp (dump_notes notes); Replace tmp NOTES_FILE ].

Definition save_notes (notes : list Note) : IO unit :=
  fs_do (save_ops notes).

(** ** Operations *)

(** What the clock and the random source give one call of [add_note]:
    [uuid.uuid4().hex[:8]] and [datetime.now().isoformat(timespec="seconds")]. *)
Record Fresh := mkFresh {
  short_uuid : string;
  now_isoformat : string
}.

Definition add_note (fr : Fresh) (text : string) (tags : list string) (priority : Z)
    : IO Note :=
  let note :=
    mkNote (short_uuid fr) (strip text) (now_isoformat fr) false
      (Some (map strip (List.filter (fun t => negb (bool_decide (strip t = ""))) tags)))
      priority in
  notes ← load_notes;
  let notes := (notes ++ [note])%list in
  save_notes notes;;
  mret note.

Definition set_done (n : Note) : Note :=
  mkNote (id n) (text n) (created_at n) true (tags n) (priority n).

(** The loop of [mark_done]: the first note with the id is set done and the
    scan stops; the flag is [hit]. *)
Fixpoint mark_loop (note_id : string) (notes : list Note) : list Note * bool :=
  match notes with
  | [] => ([], false)
  | n :: rest =>
      if bool_decide (id n = note_id) then (set_done n :: rest, true)
      else let (rest', hit) := mark_loop note_id rest in (n :: rest', hit)
  end.

Definition mark_done (note_id : string) : IO bool :=
  notes ← load_notes;
  let (notes, hit) := mark_loop note_id notes in
  (if hit : bool then save_notes notes else mret tt);;
  mret hit.

Definition clear_done : IO Z :=
  notes ← load_notes;
  let before := Z.of_nat (length notes) in
  let notes := List.filter (fun n => negb (done n)) notes in
  save_notes notes;;
  mret (before - Z.of_nat (length notes)).

(** [a < b] on pairs of an int and a str, as Python compares tuples. *)
Definition tuple_lt (a b : Z * string) : bool :=
  ((a.1 <? b.1)%Z || ((a.1 =? b.1)%Z && String.ltb a.2 b.2))%bool.

(** The builtin [sorted(l, key=key)]: a stable sort that compares keys with
    [<].  Each element is inserted before the first element of the sorted rest
    that is not smaller, so equal keys keep their order. *)
Fixpoint insert_sorted {A K} (lt : K -> K -> bool) (key : A -> K) (x : A) (l : list A)
    : list A :=
  match l with
  | [] => [x]
  | y :: l' =>
      if lt (key y) (key x) then y :: insert_sorted lt key x l' else x :: y :: l'
  end.

Definition sorted {A K} (lt : K -> K -> bool) (key : A -> K) (l : list A) : list A :=
  foldr (insert_sorted lt key) [] l.

Definition search_key (n : Note) : Z * string := (- priority n, created_at n).

Definition search_notes (pattern : string) (include_done : bool)
    : IO (result (list Note)) :=
  notes ← load_notes;
  mret (do hits <- filterR (fun n => do m <- matches n pattern;
                                     Ok (m && (include_done || negb (done n)))) notes;
        Ok (sorted tuple_lt search_key hits)).

Record Stats := mkStats {
  st_total : Z;
  st_pending : Z;
  st_done : Z;
  st_highest_priority : Z;
  st_tags : list (string * Z)   (* a dict, in insertion order *)
}.

(** [max(xs, default=0)] *)
Definition max_default0 (xs : list Z) : Z :=
  match xs with
  | [] => 0
  | x :: xs' => foldl Z.max x xs'
  end.

(** [by_tag[t] = by_tag.get(t, 0) + 1] *)
Definition count_tag (by_tag : list (string * Z)) (t : string) : list (string * Z) :=
  dict_set t (default 0 (dict_get t by_tag) + 1) by_tag.

Definition tag_key (kv : string * Z) : Z * string := (- kv.2, kv.1).

Definition stats : IO Stats :=
  notes ← load_notes;
  let total := Z.of_nat (length notes) in
  let done := Z.of_nat (length (List.filter done notes)) in
  let pending := total - done in
  let highest := max_default0 (map priority notes) in
  let by_tag :=
    foldl (fun by_tag n => foldl count_tag by_tag (tags_or_empty n)) [] notes in
  mret (mkStats total pending done highest (sorted tuple_lt tag_key by_tag)).

(** ** The [add] subcommand *)

(** The option [-p/--priority] is declared with [type=int, choices=range(0, 4)]:
    the parser rejects any other value and exits with status 2 before a
    command runs. *)
Definition priority_choice (p : Z) : bool := ((0 <=? p)%Z && (p <? 4)%Z)%bool.

(** [main] on [add TEXT -t TAGS -p P], after the conversion of [P] to an int:
    the exit status.  (The line printed on the standard output is left out.) *)
Definition main_add (fr : Fresh) (text tags : string) (p : Z) : IO Z :=
  if priority_choice p then
    add_note fr text (if bool_decide (tags = "") then [] else split "," tags) p;;
    mret 0
  else
    print_stderr usage_error;;
    mret 2.

End Program.

(** ** Export and seeding *)

Definition nl : string := String (ascii_of_N 10) "".

(** The separator of the second line of an entry: U+00B7 and the spaces
    around it. *)
Definition middot : string := " " ++ bytes [194; 183]%N ++ " ".

(** [{0: "   ", 1: "(!)", 2: "(!!)", 3: "(!!!)"}.get(p, "   ")] *)
Definition _prio (p : Z) : string :=
  if (p =? 1)%Z then "(!)"
  else if (p =? 2)%Z then "(!!)"
  else if (p =? 3)%Z then "(!!!)"
  else "   ".

(** The entry of one note in the markdown export. *)
Definition md_line (n : Note) : string :=
  let chk := if done n then "x" else " " in
  let tagstr := String.concat " " (map (fun t => "`" ++ t ++ "`") (tags_or_empty n)) in
  "- [" ++ chk ++ "] **" ++ _prio (priority n) ++ "** " ++ text n ++ "  " ++ nl
        ++ "  _" ++ id n ++ "_" ++ middot ++ created_at n ++ " " ++ tagstr.

(** [a < b] on the keys [(done, -priority, created_at)]; [False < True]. *)
Definition triple_lt (a b : bool * (Z * string)) : bool :=
  (negb a.1 && b.1) || (Bool.eqb a.1 b.1 && tuple_lt a.2 b.2).

Definition export_key (n : Note) : bool * (Z * string) :=
  (done n, (- priority n, created_at n)).

(** What [export_notes] returns or raises. *)
Inductive export_result :=
  | Exported (out : string)
  | ValueError (msg : string).

(** What the random source gives one round of [seed_random_notes]: the index
    [random.choice] picks, the list [random.sample] returns and the priority
    [random.randint(0, 3)] returns, with the values [add_note] draws. *)
Record Draw := mkDraw {
  draw_choice : nat;
  draw_sample : list string;
  draw_priority : Z;
  draw_fresh : Fresh
}.

Definition samples : list string :=
  [ "süt al"; "vim'e alış"; "toplantı 10:30"; "python regex tekrar";
    "komple dosyayı yeniden yaz"; "test ekle"; "kahve molası"; "sprint plan";
    "kod gözden geçirme"; "günlük yedek al" ].

Definition seed_tags : list string := ["acil"; "iş"; "ev"; "okul"; "market"; "deneme"].

Section Program2.
Context `{ReLib} `{JsonLib} `{HomeDir}.

Definition export_notes (fmt : string) : IO export_result :=
  notes ← load_notes;
  mret (if bool_decide (fmt = "md") then
          Exported (String.concat nl
                      (["# QuickNotes"; ""] ++
                       map md_line (sorted triple_lt export_key notes))%list)
        else if bool_decide (fmt = "json") then Exported (dump_notes notes)
        else ValueError "format desteklenmiyor (md|json)").

(** The loop of [seed_random_notes]: round [i] adds the note of [draws i]. *)
Fixpoint seed_loop (draws : nat -> Draw) (i rounds : nat) : IO (list Note) :=
  match rounds with
  | O => mret []
  | S rounds' =>
      let d := draws i in
      note ← add_note (draw_fresh d) (nth (draw_choice d) samples "")
                       (draw_sample d) (draw_priority d);
      added ← seed_loop draws (S i) rounds';
      mret (note :: added)
  end.

(** [for _ in range(n)]: no round for [n <= 0]. *)
Definition seed_random_notes (draws : nat -> Draw) (n : Z) : IO (list Note) :=
  seed_loop draws 0 (Z.to_nat n).

End Program2.

(** ** Reference instances of the libraries

    The theorems below hold for every [ReLib] and [JsonLib].  The two instances
    here make concrete stores and patterns computable: a JSON codec for the
    documents this program reads and writes, and a regular-expression engine
    for the patterns without metacharacters. *)

Module RefJson.

Definition code (a : ascii) : N := N_of_ascii a.

Definition chr (n : N) : string := String (ascii_of_N n) "".

Definition hexdigit (n : N) : string :=
  chr (if (n <? 10)%N then 48 + n else 87 + n)%N.

(** The escapes of [json.dumps(..., ensure_ascii=False)]. *)
Definition escape_char (a : ascii) : string :=
  let c := code a in
  if (c =? 34)%N then "\" ++ chr 34
  else if (c =? 92)%N then "\\"
  else if (c =? 10)%N then "\n"
  else if (c =? 13)%N then "\r"
  else if (c =? 9)%N then "\t"
  else if (c =? 8)%N then "\b"
  else if (c =? 12)%N then "\f"
  else if (c <? 32)%N then "\u00" ++ hexdigit (c / 16) ++ hexdigit (c mod 16)
  else String a "".

Fixpoint escape (s : string) : string :=
  match s with
  | "" => ""
  | String a s' => escape_char a ++ escape s'
  end.

Definition quote (s : string) : string := chr 34 ++ escape s ++ chr 34.

Fixpoint indent (level : nat) : string :=
  match level with
  | O => ""
  | S l => "  " ++ indent l
  end.

Definition newline (level : nat) : string := chr 10 ++ indent level.

Definition block (open close : string) (level : nat) (items : list string) : string :=
  open ++ newline (S level)
       ++ String.concat ("," ++ newline (S level)) items
       ++ newline level ++ close.

Fixpoint dumps_at (level : nat) (v : json) : string :=
  match v with
  | JNull => "null"
  | JBool true => "true"
  | JBool false => "false"
  | JInt z => DecimalString.NilZero.string_of_int (Z.to_int z)
  | JFloat l => l
  | JStr s => quote s
  | JArr [] => "[]"
  | JArr items => block "[" "]" level (map (dumps_at (S level)) items)
  | JObj [] => "{}"
  | JObj members =>
      block "{" "}" level
        (map (fun kv => match kv with
                        | (k, x) => quote k ++ ": " ++ dumps_at (S level) x
                        end) members)
  end.

Definition dumps (v : json) : string := dumps_at 0 v.

Definition is_ws (a : ascii) : bool :=
  let c := code a in ((c =? 32) || (c =? 9) || (c =? 10) || (c =? 13))%N.

Definition is_digit (a : ascii) : bool :=
  let c := code a in ((48 <=? c) && (c <=? 57))%N.

Fixpoint skip_ws (s : string) : string :=
  match s with
  | String a s' => if is_ws a then skip_ws s' else s
  | "" => ""
  end.

Fixpoint take_digits (s : string) : string * string :=
  match s with
  | String a s' =>
      if is_digit a then let (d, r) := take_digits s' in (String a d, r)
      else ("", s)
  | "" => ("", "")
  end.

Fixpoint digits_value (acc : Z) (d : string) : Z :=
  match d with
  | "" => acc
  | String a d' => digits_value (10 * acc + Z.of_N (code a - 48)) d'
  end.

(** A number, as the decoder's pattern reads it: an optional minus sign, then
    a zero or a digit string without leading zero, then an optional fraction
    (a dot and digits) and an optional exponent. *)
Definition parse_number (s : string) : option (json * string) :=
  let (sign, s1) :=
    match s with
    | String a r => if (code a =? 45)%N then ("-", r) else ("", s)
    | "" => ("", s)
    end in
  let (int_part, s2) :=
    match s1 with
    | String a r => if (code a =? 48)%N then ("0", r) else take_digits s1
    | "" => ("", s1)
    end in
  if bool_decide (int_part = "") then None
  else
    let (frac, s3) :=
      match s2 with
      | String a r =>
          if (code a =? 46)%N then
            let (d, r') := take_digits r in
            if bool_decide (d = "") then ("", s2) else ("." ++ d, r')
          else ("", s2)
      | "" => ("", s2)
      end in
    let (exp, s4) :=
      match s3 with
      | String a r =>
          if ((code a =? 101) || (code a =? 69))%N then
            let (sg, r1) :=
              match r with
              | String b r' =>
                  if ((code b =? 43) || (code b =? 45))%N
                  then (String b "", r') else ("", r)
              | "" => ("", r)
              end in
            let (d, r2) := take_digits r1 in
            if bool_decide (d = "") then ("", s3) else (String a sg ++ d, r2)
          else ("", s3)
      | "" => ("", s3)
      end in
    if bool_decide (frac = "") && bool_decide (exp = "") then
      let z := digits_value 0 int_part in
      Some (JInt (if bool_decide (sign = "") then z else - z), s4)
    else Some (JFloat (sign ++ int_part ++ frac ++ exp), s4).

Definition hex_value (a : ascii) : option N :=
  let c := code a in
  if ((48 <=? c) && (c <=? 57))%N then Some (c - 48)%N
  else if ((97 <=? c) && (c <=? 102))%N then Some (c - 87)%N
  else if ((65 <=? c) && (c <=? 70))%N then Some (c - 55)%N
  else None.

(** UTF-8 of a code point of the basic plane; a surrogate has none. *)
Definition utf8 (cp : N) : option string :=
  if (cp <? 128)%N then Some (chr cp)
  else if (cp <? 2048)%N then Some (chr (192 + cp / 64) ++ chr (128 + cp mod 64))
  else if ((55296 <=? cp) && (cp <=? 57343))%N then None
  else Some (chr (224 + cp / 4096) ++ chr (128 + (cp / 64) mod 64)
                                   ++ chr (128 + cp mod 64)).

(** The rest of a string literal after its opening quote. *)
Fixpoint parse_string (acc : string) (s : string) : option (string * string) :=
  match s with
  | "" => None
  | String a r =>
      let c := code a in
      if (c =? 34)%N then Some (String.rev acc, r)
      else if (c <? 32)%N then None
      else if (c =? 92)%N then
        match r with
        | String b r1 =>
            let e := code b in
            if ((e =? 34) || (e =? 92) || (e =? 47))%N then parse_string (String b acc) r1
            else if (e =? 98)%N then parse_string (String.rev (chr 8) ++ acc) r1
            else if (e =? 102)%N then parse_string (String.rev (chr 12) ++ acc) r1
            else if (e =? 110)%N then parse_string (String.rev (chr 10) ++ acc) r1
            else if (e =? 114)%N then parse_string (String.rev (chr 13) ++ acc) r1
            else if (e =? 116)%N then parse_string (String.rev (chr 9) ++ acc) r1
            else if (e =? 117)%N then
              match r1 with
              | String h1 (String h2 (String h3 (String h4 r2))) =>
                  match hex_value h1, hex_value h2, hex_value h3, hex_value h4 with
                  | Some a1, Some a2, Some a3, Some a4 =>
                      match utf8 (((a1 * 16 + a2) * 16 + a3) * 16 + a4)%N with
                      | Some u => parse_string (String.rev u ++ acc) r2
                      | None => None
                      end
                  | _, _, _, _ => None
                  end
              | _ => None
              end
            else None
        | "" => None
        end
      else parse_string (String a acc) r
  end.

Definition after (lit : string) (s : string) : option string :=
  if String.prefix lit s then Some (drop_string (String.length lit) s) else None.

Fixpoint parse_value (fuel : nat) (s : string) : option (json * string) :=
  match fuel with
  | O => None
  | S fuel' =>
      match s with
      | "" => None
      | String a r =>
          let c := code a in
          if (c =? 34)%N then
            match parse_string "" r with
            | Some (str, r') => Some (JStr str, r')
            | None => None
            end
          else if (c =? 91)%N then
            match skip_ws r with
            | String b r' =>
                if (code b =? 93)%N then Some (JArr [], r')
                else match parse_items fuel' (skip_ws r) with
                     | Some (items, r'') => Some (JArr items, r'')
                     | None => None
                     end
            | "" => None
            end
          else if (c =? 123)%N then
            match skip_ws r with
            | String b r' =>
                if (code b =? 125)%N then Some (JObj [], r')
                else match parse_members fuel' (skip_ws r) with
                     | Some (ms, r'') =>
                         Some (JObj (foldl (fun d kv => dict_set kv.1 kv.2 d) [] ms), r'')
                     | None => None
                     end
            | "" => None
            end
          else
            match after "null" s, after "true" s, after "false" s with
            | Some r', _, _ => Some (JNull, r')
            | _, Some r', _ => Some (JBool true, r')
            | _, _, Some r' => Some (JBool false, r')
            | _, _, _ =>
                match after "NaN" s, after "Infinity" s, after "-Infinity" s with
                | Some r', _, _ => Some (JFloat "NaN", r')
                | _, Some r', _ => Some (JFloat "Infinity", r')
                | _, _, Some r' => Some (JFloat "-Infinity", r')
                | _, _, _ => parse_number s
                end
            end
      end
  end
with parse_items (fuel : nat) (s : string) : option (list json * string) :=
  match fuel with
  | O => None
  | S fuel' =>
      match parse_value fuel' s with
      | Some (v, r) =>
          match skip_ws r with
          | String b r' =>
              if (code b =? 44)%N then
                match parse_items fuel' (skip_ws r') with
                | Some (vs, r'') => Some (v :: vs, r'')
                | None => None
                end
              else if (code b =? 93)%N then Some ([v], r')
              else None
          | "" => None
          end
      | None => None
      end
  end
with parse_members (fuel : nat) (s : string) : option (list (string * json) * string) :=
  match fuel with
  | O => None
  | S fuel' =>
      match s with
      | String q r =>
          if (code q =? 34)%N then
            match parse_string "" r with
            | Some (k, r1) =>
                match skip_ws r1 with
                | String b r2 =>
                    if (code b =? 58)%N then
                      match parse_value fuel' (skip_ws r2) with
                      | Some (v, r3) =>
                          match skip_ws r3 with
                          | String d r4 =>
                              if (code d =? 44)%N then
                                match parse_members fuel' (skip_ws r4) with
                                | Some (ms, r5) => Some ((k, v) :: ms, r5)
                                | None => None
                                end
                              else if (code d =? 125)%N then Some ([(k, v)], r4)
                              else None
                          | "" => None
                          end
                      | None => None
                      end
                    else None
                | "" => None
                end
            | None => None
            end
          else None
      | "" => None
      end
  end.

Definition loads (s : string) : option json :=
  match parse_value (2 * String.length s + 2) (skip_ws s) with
  | Some (v, r) => if bool_decide (skip_ws r = "") then Some v else None
  | None => None
  end.

Definition ref_json : JsonLib := {|
  json_dumps := dumps;
  json_loads := loads
|}.

End RefJson.

Module LiteralRe.

(** The characters with a meaning of their own in a pattern: [.^$*+?{}[]\|()]. *)
Definition metachar (a : ascii) : bool :=
  bool_decide (N_of_ascii a ∈ [46; 94; 36; 42; 43; 63; 123; 125; 91; 93; 92; 124; 40; 41]%N).

(** An engine for the patterns without metacharacters: such a pattern is
    searched as it is, without case; every other pattern is refused, which
    Python's engine does only for the malformed ones. *)
Definition literal_re : ReLib := {|
  regex := string;
  re_compile p := if string_forallb (fun a => negb (metachar a)) p then Some p else None;
  re_search rx s := icontains rx s
|}.

End LiteralRe.

(** The home directory of the examples. *)
Definition example_home : HomeDir := "/home/u".

(** ** Vocabulary of the specification *)

Section Vocabulary.
Context `{ReLib} `{JsonLib} `{HomeDir}.

(** The temporary file of [save_notes]. *)
Definition tmp_path : path := with_suffix NOTES_FILE ".tmp".

(** The codec reads back the document it wrote for [notes]. *)
Definition round_trips (notes : list Note) : Prop :=
  json_loads (dump_notes notes) = Some (JArr (map asdict notes)).

Definition required_fields : list string := ["id"; "text"; "created_at"].

(** A decoded item no [Note] can be built from: it is not an object, it has a
    key that is no field, or it lacks a required field. *)
Definition bad_record (r : json) : bool :=
  match r with
  | JObj kw =>
      existsb (fun k => negb (existsb (String.eqb k) field_names)) kw.*1
      || existsb (fun k => negb (bool_decide (is_Some (dict_get k kw)))) required_fields
  | _ => true
  end.

(** A decoded document that is not a sequence of such records. *)
Definition malformed (data : json) : bool :=
  match data with
  | JArr l => existsb bad_record l
  | JObj [] | JStr "" => false
  | _ => true
  end.

(** The text of the store cannot be parsed into notes: the decoder rejects
    it, or the document it decodes to is malformed. *)
Definition unreadable (data : string) : Prop :=
  match json_loads data with
  | None => True
  | Some d => malformed d = true
  end.

(** The domain of the model: the load meets no value outside the annotated
    type of its field.  (The dataclass would store such a value unchecked.) *)
Definition typed_store (w : World) : Prop :=
  forall data k, files w !! NOTES_FILE = Some data ->
    parse_notes data <> Raise (TypeError (FieldType k)).

(** The world after [load_notes] reported the failure [e]. *)
Definition reported (e : exn) (w : World) : World :=
  mkWorld (files w) (stderr w ++ [hata e]).

(** The pattern is empty or compiles. *)
Definition valid_pattern (pattern : string) : Prop :=
  pattern = "" \/ is_Some (re_compile pattern).

#[global] Instance valid_pattern_dec pattern : Decision (valid_pattern pattern).
Proof. unfold valid_pattern. apply _. Defined.

(** The notes a search keeps: [matches] is true, and the note is pending
    unless done notes are asked for. *)
Definition wanted (pattern : string) (include_done : bool) (n : Note) : bool :=
  match matches n pattern with
  | Ok true => include_done || negb (done n)
  | _ => false
  end.

(** [a] may stand before [b] in a search result: higher priority first, and
    the older one first among equal priorities. *)
Definition search_order (a b : Note) : Prop :=
  priority b < priority a \/
  (priority a = priority b /\ String.le (created_at a) (created_at b)).

Definition same_rank (p : Z) (c : string) (n : Note) : bool :=
  bool_decide (priority n = p /\ created_at n = c).

End Vocabulary.

(** How often [t] stands in [l]. *)
Definition occurrences (t : string) (l : list string) : Z :=
  Z.of_nat (length (List.filter (fun x => String.eqb x t) l)).

(** The dict of the counting loop after the tags [seen]. *)
Definition counts (d : list (string * Z)) (seen : list string) : Prop :=
  NoDup d.*1 /\
  forall t, dict_get t d = if bool_decide (t ∈ seen) then Some (occurrences t seen) else None.

(** [a] may stand before [b] in the tag counts: the larger count first, and
    the smaller name first among equal counts. *)
Definition tag_order (a b : string * Z) : Prop :=
  b.2 < a.2 \/ (a.2 = b.2 /\ String.le a.1 b.1).

(** [a] may stand before [b] in the markdown export: pending notes first,
    then as in a search. *)
Definition export_order (a b : Note) : Prop :=
  (done a = false /\ done b = true) \/ (done a = done b /\ search_order a b).

Definition same_export_rank (d : bool) (p : Z) (c : string) (n : Note) : bool :=
  bool_decide (done n = d /\ priority n = p /\ created_at n = c).

(** The sum of the counts of a dict of counts. *)
Definition sum_counts (d : list (string * Z)) : Z := foldr Z.add 0 d.*2.

(** A note without its done flag. *)
Definition erase_done (n : Note) : Note :=
  mkNote (id n) (text n) (created_at n) false (tags n) (priority n).

(** What the random functions promise of a draw: an index into [samples], at
    most two distinct members of [seed_tags], a priority from 0 to 3. *)
Definition valid_draw (d : Draw) : Prop :=
  (draw_choice d < length samples)%nat /\
  NoDup (draw_sample d) /\ (length (draw_sample d) <= 2)%nat /\
  (forall t, t ∈ draw_sample d -> t ∈ seed_tags) /\
  0 <= draw_priority d <= 3.

(** What a seeded note looks like. *)
Definition seeded (note : Note) : Prop :=
  text note ∈ samples /\ 0 <= priority note <= 3 /\ done note = false /\
  (length (tags_or_empty note) <= 2)%nat.

(** No whitespace character stands at the start or at the end of [s]. *)
Definition trimmed (s : string) : Prop :=
  strip1 whitespace s = None /\
  strip1 (map String.rev whitespace) (String.rev s) = None.

(** * Proofs *)

(** ** The builtin [sorted] *)

Section SortedFacts.
Context {A K : Type} `{EqDecision K} (lt : K -> K -> bool) (key : A -> K).
Hypothesis lt_irrefl : forall a, lt a a = false.
Hypothesis lt_trans : forall a b c, lt a b = true -> lt b c = true -> lt a c = true.
Hypothesis lt_total : forall a b, lt a b = false -> lt b a = false -> a = b.

(** [x] may stand before [y]: the key of [y] is not smaller. *)
Definition not_after (x y : A) : Prop := lt (key y) (key x) = false.

Lemma lt_asym a b : lt a b = true -> lt b a = false.
Proof.
  intros Hab. destruct (lt b a) eqn:Hba; [|done].
  by rewrite <- (lt_irrefl a), (lt_trans a b a).
Qed.

Lemma not_after_trans x y z : not_after x y -> not_after y z -> not_after x z.
Proof.
  unfold not_after. intros Hxy Hyz.
  destruct (lt (key z) (key x)) eqn:Hzx; [|done].
  destruct (lt (key x) (key y)) eqn:Hxy'.
  - by rewrite (lt_trans _ _ _ Hzx Hxy') in Hyz.
  - by rewrite <- (lt_total _ _ Hxy Hxy'), Hyz in Hzx.
Qed.

Lemma insert_sorted_perm x l : insert_sorted lt key x l ≡ₚ x :: l.
Proof.
  induction l as [|y l IH]; simpl; [done|].
  destruct (lt (key y) (key x)); [|done].
  rewrite IH. apply Permutation_swap.
Qed.

Lemma sorted_perm l : sorted lt key l ≡ₚ l.
Proof.
  induction l as [|x l IH]; simpl; [done|].
  by rewrite insert_sorted_perm, IH.
Qed.

Lemma insert_sorted_Sorted x l :
  Sorted not_after l -> Sorted not_after (insert_sorted lt key x l).
Proof.
  induction 1 as [|y l Hs IH Hhd]; simpl.
  - by repeat constructor.
  - destruct (lt (key y) (key x)) eqn:Hyx.
    + constructor; [done|].
      destruct Hhd as [|z l Hyz]; simpl.
      * constructor. by apply lt_asym.
      * destruct (lt (key z) (key x)); constructor; [done|]. by apply lt_asym.
    + constructor; [by constructor|]. by constructor.
Qed.

Lemma sorted_Sorted l : Sorted not_after (sorted lt key l).
Proof.
  induction l as [|x l IH]; simpl; [constructor|].
  by apply insert_sorted_Sorted.
Qed.

Lemma sorted_StronglySorted l : StronglySorted not_after (sorted lt key l).
Proof.
  apply Sorted_StronglySorted; [|apply sorted_Sorted].
  intros x y z. apply not_after_trans.
Qed.

(** Stability: the elements with one key stand in the order they had. *)
Lemma insert_sorted_filter_key k x l :
  List.filter (fun a => bool_decide (key a = k)) (insert_sorted lt key x l) =
  List.filter (fun a => bool_decide (key a = k)) (x :: l).
Proof.
  induction l as [|y l IH]; [done|].
  cbn [insert_sorted]. destruct (lt (key y) (key x)) eqn:Hyx; [|done].
  cbn [List.filter] in *. rewrite IH.
  destruct (bool_decide_reflect (key x = k)) as [Hx|]; [|done].
  destruct (bool_decide_reflect (key y = k)) as [Hy|]; [|done].
  by rewrite Hx, Hy, lt_irrefl in Hyx.
Qed.

Lemma sorted_stable k l :
  List.filter (fun a => bool_decide (key a = k)) (sorted lt key l) =
  List.filter (fun a => bool_decide (key a = k)) l.
Proof.
  induction l as [|x l IH]; [done|].
  cbn [sorted foldr]. fold (sorted lt key l).
  rewrite insert_sorted_filter_key. cbn [List.filter]. by rewrite IH.
Qed.

(** These three properties determine the result: [sorted] stands for any
    stable sort, whatever its algorithm. *)
Lemma stable_sort_unique l1 l2 :
  Sorted not_after l1 -> Sorted not_after l2 ->
  (forall k, List.filter (fun a => bool_decide (key a = k)) l1 =
             List.filter (fun a => bool_decide (key a = k)) l2) ->
  l1 ≡ₚ l2 -> l1 = l2.
Proof.
  intros Hs1 Hs2.
  assert (Transitive not_after) as Htr by (intros x y z; apply not_after_trans).
  apply (Sorted_StronglySorted not_after) in Hs1, Hs2.
  revert l2 Hs2. induction Hs1 as [|x l1 Hs1 IH Hx]; intros l2 Hs2 Hst Hp.
  - by apply Permutation_nil in Hp.
  - destruct Hs2 as [|y l2 Hs2 Hy]; [by apply Permutation_sym, Permutation_nil in Hp|].
    assert (key x = key y) as Hk.
    { rewrite Forall_forall in Hx, Hy. apply lt_total.
      - assert (x ∈ y :: l2) as [->|Hin]%elem_of_cons by (rewrite <- Hp; left);
          [apply lt_irrefl|by apply Hy].
      - assert (y ∈ x :: l1) as [->|Hin]%elem_of_cons by (rewrite Hp; left);
          [apply lt_irrefl|by apply Hx]. }
    pose proof (Hst (key x)) as Hf. cbn [List.filter] in Hf.
    rewrite bool_decide_eq_true_2 in Hf by done.
    rewrite (bool_decide_eq_true_2 (key y = key x)) in Hf by done.
    injection Hf as -> Hf. f_equal. apply IH; [done| |by apply Permutation_cons_inv in Hp].
    intros k. specialize (Hst k). cbn [List.filter] in Hst.
    destruct (bool_decide (key y = k)); [by injection Hst|done].
Qed.

End SortedFacts.

(** ** The order of tuples *)

Lemma string_ltb_leb a b : String.ltb a b = negb (String.leb b a).
Proof.
  unfold String.ltb, String.leb. rewrite (String.compare_antisym b a).
  by destruct (String.compare a b).
Qed.

Lemma string_ltb_false a b : String.ltb a b = false <-> String.le b a.
Proof.
  rewrite string_ltb_leb. unfold String.le.
  destruct (String.leb b a); simpl; naive_solver.
Qed.

Lemma string_ltb_true a b : String.ltb a b = true <-> String.le a b /\ a <> b.
Proof.
  destruct (String.ltb a b) eqn:Hlt.
  - split; [intros _|done].
    assert (~ String.le b a) as Hn by (rewrite <- string_ltb_false; congruence).
    split; [by destruct (total String.le a b)|].
    intros ->. by apply Hn.
  - apply string_ltb_false in Hlt. split; [done|].
    intros [Hle Hne]. destruct Hne. by apply (anti_symm String.le).
Qed.

Lemma tuple_lt_irrefl a : tuple_lt a a = false.
Proof.
  unfold tuple_lt. rewrite Z.ltb_irrefl, Z.eqb_refl. simpl.
  by apply string_ltb_false.
Qed.

Lemma tuple_lt_spec a b :
  tuple_lt a b = true <-> (a.1 < b.1)%Z \/ (a.1 = b.1 /\ String.ltb a.2 b.2 = true).
Proof.
  unfold tuple_lt. rewrite orb_true_iff, andb_true_iff, Z.ltb_lt, Z.eqb_eq. tauto.
Qed.

Lemma tuple_lt_false a b :
  tuple_lt a b = false <-> (b.1 < a.1)%Z \/ (a.1 = b.1 /\ String.le b.2 a.2).
Proof.
  rewrite <- string_ltb_false, <- not_true_iff_false, tuple_lt_spec.
  destruct (String.ltb a.2 b.2); split; try lia; intuition (try lia; congruence).
Qed.

Lemma tuple_lt_trans a b c :
  tuple_lt a b = true -> tuple_lt b c = true -> tuple_lt a c = true.
Proof.
  rewrite !tuple_lt_spec.
  intros [?|[? Hab]] [?|[? Hbc]]; try (left; lia). right. split; [lia|].
  apply string_ltb_true in Hab as [Hab Hne], Hbc as [Hbc Hne'].
  apply string_ltb_true. split; [by etrans|].
  intros Heq. apply Hne. apply (anti_symm String.le); [done|]. by rewrite Heq.
Qed.

Lemma tuple_lt_total a b : tuple_lt a b = false -> tuple_lt b a = false -> a = b.
Proof.
  rewrite !tuple_lt_false. destruct a as [a1 a2], b as [b1 b2]. simpl.
  intros [?|[? Hba]] [?|[? Hab]]; try lia.
  f_equal; [done|]. by apply (anti_symm String.le).
Qed.

(** ** Storage *)

Section ProgramFacts.
Context `{ReLib} `{JsonLib} `{HomeDir}.

Lemma tmp_path_eq : tmp_path = (home, ".quicknotes.tmp").
Proof. reflexivity. Qed.

Lemma tmp_path_ne : tmp_path <> NOTES_FILE.
Proof. rewrite tmp_path_eq. unfold NOTES_FILE. congruence. Qed.

Lemma load_notes_eq w :
  load_notes w =
  match files w !! NOTES_FILE with
  | None => ([], w)
  | Some data =>
      match parse_notes data with
      | Ok notes => (notes, w)
      | Raise e => ([], mkWorld (files w) (stderr w ++ [hata e]))
      end
  end.
Proof.
  unfold load_notes, mbind, io_mbind, io_bind, read_file.
  destruct (files w !! NOTES_FILE) as [data|]; [|done].
  by destruct (parse_notes data).
Qed.

Lemma load_notes_files w : files (load_notes w).2 = files w.
Proof.
  rewrite load_notes_eq. destruct (files w !! NOTES_FILE) as [data|]; [|done].
  by destruct (parse_notes data).
Qed.

Lemma save_ops_eq notes :
  save_ops notes =
  [WriteText tmp_path (dump_notes notes); Replace tmp_path NOTES_FILE].
Proof. reflexivity. Qed.

Lemma save_notes_eq notes w :
  save_notes notes w =
  (tt, mkWorld (<[NOTES_FILE := dump_notes notes]>
                  (delete tmp_path (<[tmp_path := dump_notes notes]> (files w))))
               (stderr w)).
Proof.
  unfold save_notes, fs_do. rewrite save_ops_eq. cbn [fs_run foldl fs_step].
  by rewrite lookup_insert_eq.
Qed.

Lemma save_notes_lookup notes w :
  files (save_notes notes w).2 !! NOTES_FILE = Some (dump_notes notes).
Proof. rewrite save_notes_eq. cbn. by rewrite lookup_insert_eq. Qed.

Lemma mapR_as_str k ts : mapR (as_str k) (map JStr ts) = Ok ts.
Proof. induction ts as [|t ts IH]; [done|]. cbn. by rewrite IH. Qed.

Lemma Note_of_json_asdict n : Note_of_json (asdict n) = Ok n.
Proof.
  destruct n as [i t c d g p].
  unfold asdict, Note_of_json, Note_of_kwargs, required, optional, dict_get.
  destruct g as [ts|]; cbn; [|done].
  by rewrite mapR_as_str.
Qed.

Lemma Notes_of_json_asdict notes : Notes_of_json (JArr (map asdict notes)) = Ok notes.
Proof.
  cbn. induction notes as [|n notes IH]; [done|].
  cbn [map mapR]. rewrite Note_of_json_asdict. cbn. by rewrite IH.
Qed.

Lemma parse_notes_dump notes : round_trips notes -> parse_notes (dump_notes notes) = Ok notes.
Proof. unfold parse_notes. intros ->. apply Notes_of_json_asdict. Qed.

Lemma load_after_save notes w :
  round_trips notes ->
  load_notes (save_notes notes w).2 = (notes, (save_notes notes w).2).
Proof.
  intros Hrt. rewrite load_notes_eq, save_notes_lookup.
  by rewrite parse_notes_dump.
Qed.

End ProgramFacts.

(** ** Search *)

Lemma StronglySorted_weaken {A} (R1 R2 : A -> A -> Prop) l :
  (forall x y, R1 x y -> R2 x y) -> StronglySorted R1 l -> StronglySorted R2 l.
Proof.
  intros HR. induction 1 as [|x l Hs IH Hx]; constructor; [done|].
  eapply Forall_impl; [exact Hx|]. intros y. apply HR.
Qed.

Lemma search_order_not_after a b :
  not_after tuple_lt search_key a b <-> search_order a b.
Proof.
  unfold not_after, search_order. rewrite tuple_lt_false. simpl. intuition lia.
Qed.

Lemma same_rank_key p c n :
  same_rank p c n = bool_decide (search_key n = (- p, c)).
Proof.
  unfold same_rank, search_key. apply bool_decide_ext.
  split; [intros [-> ->]; done|]. intros [= ? ?]. split; [lia|done].
Qed.

Lemma filterR_Ok {A} (f : A -> result bool) (g : A -> bool) l :
  (forall x, x ∈ l -> f x = Ok (g x)) -> filterR f l = Ok (List.filter g l).
Proof.
  induction l as [|x l IH]; intros Hf; [done|].
  cbn. rewrite (Hf x) by left. cbn. rewrite IH by (intros; apply Hf; by right).
  cbn. by destruct (g x).
Qed.

Lemma filterR_Raise {A} (f : A -> result bool) e x l :
  f x = Raise e -> filterR f (x :: l) = Raise e.
Proof. intros Hf. cbn. by rewrite Hf. Qed.

Section SearchFacts.
Context `{ReLib} `{JsonLib} `{HomeDir}.

Lemma search_notes_eq pattern include_done w :
  (search_notes pattern include_done w).1 =
  do hits <- filterR (fun n => do m <- matches n pattern;
                               Ok (m && (include_done || negb (done n))))
                     (load_notes w).1;
  Ok (sorted tuple_lt search_key hits).
Proof.
  unfold search_notes, mbind, io_mbind, io_bind, mret, io_mret, io_ret.
  by destruct (load_notes w).
Qed.

Lemma matches_valid pattern n :
  valid_pattern pattern -> exists b, matches n pattern = Ok b.
Proof.
  unfold matches. intros [->|[rx Hrx]]; [by eexists|].
  case_decide; [by eexists|]. rewrite Hrx. by eexists.
Qed.

Lemma matches_invalid pattern n :
  ~ valid_pattern pattern -> matches n pattern = Raise (ReError pattern).
Proof.
  unfold matches, valid_pattern. intros Hv.
  case_decide; [tauto|]. destruct (re_compile pattern) eqn:Hc; [|done].
  destruct Hv. right. by eexists.
Qed.

Lemma search_hits pattern include_done notes :
  valid_pattern pattern ->
  filterR (fun n => do m <- matches n pattern;
                    Ok (m && (include_done || negb (done n)))) notes =
  Ok (List.filter (wanted pattern include_done) notes).
Proof.
  intros Hv. apply filterR_Ok. intros n _. unfold wanted.
  destruct (matches_valid pattern n Hv) as [b ->]. by destruct b.
Qed.

Lemma wanted_invalid pattern include_done notes :
  ~ valid_pattern pattern -> List.filter (wanted pattern include_done) notes = [].
Proof.
  intros Hv. induction notes as [|n notes IH]; [done|].
  cbn. unfold wanted at 1. by rewrite matches_invalid.
Qed.

End SearchFacts.

Section Search.
Context `{ReLib} `{JsonLib} `{HomeDir}.

(** C1. On a store of the model's domain, [search_notes] returns the loaded
    notes that match the pattern and are
    pending (or all matching ones when done notes are included), each as often
    as it was loaded, ordered by descending priority and then ascending
    [created_at], notes equal on both keys in their loaded order; it raises
    only for a pattern that does not compile, on a store that is not empty.
    In particular the notes A (priority 1, created T1), B (3, T2), C (1, T0)
    with T0 < T1 < T2 come out as B, C, A. *)
Theorem search_notes_spec (w : World) (pattern : string) (include_done : bool) :
  typed_store w ->
  let notes := (load_notes w).1 in
  let kept := List.filter (wanted pattern include_done) notes in
  (exists out,
     out ≡ₚ kept /\
     StronglySorted search_order out /\
     (forall p c, List.filter (same_rank p c) out = List.filter (same_rank p c) kept) /\
     (search_notes pattern include_done w).1 =
       if decide (valid_pattern pattern \/ notes = []) then Ok out
       else Raise (ReError pattern)) /\
  (forall A B C,
     notes ≡ₚ [A; B; C] ->
     priority A = 1 -> priority B = 3 -> priority C = 1 ->
     String.ltb (created_at C) (created_at A) = true ->
     String.ltb (created_at A) (created_at B) = true ->
     (search_notes "" true w).1 = Ok [B; C; A]).
Proof.
  intros _ notes kept.
  assert (forall l, StronglySorted search_order (sorted tuple_lt search_key l)) as Hsorted.
  { intros l.
    apply (StronglySorted_weaken (not_after tuple_lt search_key));
      [intros x y; apply search_order_not_after|].
    apply sorted_StronglySorted.
    - apply tuple_lt_irrefl.
    - apply tuple_lt_trans.
    - apply tuple_lt_total. }
  split.
  - exists (sorted tuple_lt search_key kept). split; [apply sorted_perm|].
    split; [apply Hsorted|]. split.
    + intros p c. rewrite !(filter_ext _ _ (same_rank_key p c)).
      apply sorted_stable, tuple_lt_irrefl.
    + rewrite search_notes_eq. fold notes. case_decide as Hv.
      * destruct Hv as [Hv|Hnil].
        -- by rewrite search_hits.
        -- subst kept. by rewrite Hnil.
      * destruct notes as [|n notes'] eqn:Hn; [tauto|].
        rewrite (filterR_Raise _ (ReError pattern)); [done|].
        rewrite matches_invalid; [done|tauto].
  - intros A B C Hperm HA HB HC HCA HAB.
    rewrite search_notes_eq. fold notes.
    rewrite search_hits by (by left). cbn. f_equal.
    assert (List.filter (wanted "" true) notes = notes) as ->.
    { clear. induction notes as [|n l IH]; [done|]. cbn. by rewrite IH. }
    apply string_ltb_true in HCA as [HCA HCA'], HAB as [HAB HAB'].
    assert (created_at C <> created_at B) as HCB'.
    { intros Heq. apply HAB'. apply (anti_symm String.le); [done|]. by rewrite <- Heq. }
    apply (StronglySorted_unique_strong search_order).
    + intros x1 x2 Hx1 Hx2.
      rewrite sorted_perm, Hperm in Hx1.
      unfold search_order.
      set_unfold. destruct Hx1 as [->|[->|[->|[]]]], Hx2 as [->|[->|[->|[]]]];
        try done; intros [?|[? ?]] [?|[? ?]]; try lia.
      * destruct HCA'. by apply (anti_symm String.le).
      * destruct HCA'. by apply (anti_symm String.le).
    + apply Hsorted.
    + repeat first [apply SSorted_cons | apply SSorted_nil
                    | apply Forall_cons_2 | apply Forall_nil_2];
        unfold search_order; try (left; lia).
      right. split; [lia|done].
    + rewrite sorted_perm, Hperm.
      transitivity [B; A; C]; [apply Permutation_swap|apply perm_skip, Permutation_swap].
Qed.

End Search.

(** ** Matching *)

Lemma plain_char_not_meta a : plain_char a = true -> LiteralRe.metachar a = false.
Proof. destruct a as [[] [] [] [] [] [] [] []]; vm_compute; congruence. Qed.

Lemma literal_re_law : @re_literal_law LiteralRe.literal_re.
Proof.
  intros p [_ Hp]%andb_true_iff. exists p. split; [|done].
  cbn. replace (string_forallb _ p) with true; [done|].
  symmetry. induction p as [|a p IH]; [done|].
  cbn in *. apply andb_true_iff in Hp as [Ha Hp].
  by rewrite (plain_char_not_meta a Ha), IH.
Qed.

Section Matching.
Context `{ReLib}.

Lemma matches_compiled n pattern rx :
  pattern <> "" -> re_compile pattern = Some rx ->
  matches n pattern =
  Ok (re_search rx (text n) || existsb (re_search rx) (tags_or_empty n)).
Proof. intros Hne Hrx. unfold matches. case_decide; [done|]. by rewrite Hrx. Qed.

(** C3. [matches] is true for the empty pattern; for a pattern that compiles it
    is true exactly when the compiled pattern is found in the text or in one
    of the tags; for a pattern that does not compile it raises the engine's
    error, which [search_notes] passes on to its caller.  With an engine that
    searches plain patterns without case, a note with the text "buy milk" and
    the tag "errand" matches "milk", "MILK" and "errand" but not "coffee". *)
Theorem matches_spec (n : Note) (pattern : string) :
  (pattern = "" -> matches n pattern = Ok true) /\
  (forall rx, pattern <> "" -> re_compile pattern = Some rx ->
     exists b, matches n pattern = Ok b /\
       (b = true <->
        re_search rx (text n) = true \/
        exists t, t ∈ tags_or_empty n /\ re_search rx t = true)) /\
  (pattern <> "" -> re_compile pattern = None ->
     matches n pattern = Raise (ReError pattern) /\
     forall (J : JsonLib) (D : HomeDir) w include_done,
       (load_notes w).1 <> [] ->
       (search_notes pattern include_done w).1 = Raise (ReError pattern)) /\
  (re_literal_law -> text n = "buy milk" -> tags n = Some ["errand"] ->
     matches n "milk" = Ok true /\ matches n "MILK" = Ok true /\
     matches n "errand" = Ok true /\ matches n "coffee" = Ok false).
Proof.
  split; [by intros ->|]. split; [|split].
  - intros rx Hne Hrx. eexists. split; [by apply matches_compiled|].
    rewrite orb_true_iff, existsb_exists.
    by setoid_rewrite <- list_elem_of_In.
  - intros Hne Hc.
    assert (~ valid_pattern pattern) as Hv.
    { intros [?|[rx Hrx]]; [done|congruence]. }
    split; [by apply matches_invalid|].
    intros J D w include_done Hnotes. rewrite search_notes_eq.
    destruct (load_notes w).1 as [|m notes]; [done|].
    rewrite (filterR_Raise _ (ReError pattern)); [done|].
    by rewrite matches_invalid.
  - intros Hlaw Htext Htags.
    assert (forall p, plain p = true ->
              matches n p = Ok (icontains p "buy milk" || icontains p "errand")) as Hm.
    { intros p Hp. destruct (Hlaw p Hp) as (rx & Hrx & Hs).
      rewrite (matches_compiled n p rx); [|by intros ->|done].
      unfold tags_or_empty. rewrite Htext, Htags. cbn.
      by rewrite !Hs, orb_false_r. }
    by rewrite !Hm.
Qed.

End Matching.

(** ** Loading *)

Lemma mapR_Raise {A B} (f : A -> result B) l x :
  x ∈ l -> (exists e, f x = Raise e) -> exists e, mapR f l = Raise e.
Proof.
  induction l as [|y l IH]; intros Hin Hx; [by apply elem_of_nil in Hin|].
  apply elem_of_cons in Hin as [<-|Hin]; cbn.
  - destruct Hx as [e ->]. by eexists.
  - destruct (f y); cbn; [|by eexists].
    destruct (IH Hin Hx) as [e ->]. by eexists.
Qed.

Lemma find_existsb {A} (f : A -> bool) l :
  existsb f l = true -> exists x, List.find f l = Some x.
Proof.
  induction l as [|y l IH]; [done|]. cbn.
  destruct (f y); [by eexists|]. apply IH.
Qed.

Lemma Note_of_kwargs_missing kw k :
  k ∈ required_fields -> dict_get k kw = None -> exists e, Note_of_kwargs kw = Raise e.
Proof.
  intros Hk Hget. unfold Note_of_kwargs.
  destruct (List.find _ kw.*1); [by eexists|].
  unfold required_fields in Hk. set_unfold.
  unfold required.
  destruct (dict_get "id" kw) as [v1|] eqn:H1; [|by eexists].
  destruct (as_str "id" v1); cbn; [|by eexists].
  destruct (dict_get "text" kw) as [v2|] eqn:H2; [|by eexists].
  destruct (as_str "text" v2); cbn; [|by eexists].
  destruct (dict_get "created_at" kw) as [v3|] eqn:H3; [|by eexists].
  destruct Hk as [->|[->|[->|[]]]]; congruence.
Qed.

Lemma bad_record_Raise r : bad_record r = true -> exists e, Note_of_json r = Raise e.
Proof.
  destruct r as [| | | | | |kw]; try (intros _; by eexists).
  cbn [bad_record Note_of_json]. intros [Hbad|Hbad]%orb_true_iff.
  - unfold Note_of_kwargs. destruct (find_existsb _ _ Hbad) as [k ->]. by eexists.
  - apply existsb_exists in Hbad as (k & Hk & Hget).
    apply (Note_of_kwargs_missing kw k); [by apply list_elem_of_In|].
    apply negb_true_iff, bool_decide_eq_false in Hget.
    by destruct (dict_get k kw); [destruct Hget|].
Qed.

Lemma malformed_Raise d : malformed d = true -> exists e, Notes_of_json d = Raise e.
Proof.
  destruct d as [| | | |s|l|kv]; try (intros _; by eexists).
  - destruct s; [done|]. by eexists.
  - cbn. intros (r & Hin & Hbad)%existsb_exists.
    apply (mapR_Raise _ _ r); [by apply list_elem_of_In|by apply bad_record_Raise].
  - destruct kv; [done|]. by eexists.
Qed.

Section Loading.
Context `{ReLib} `{JsonLib} `{HomeDir}.

Lemma unreadable_Raise data : unreadable data -> exists e, parse_notes data = Raise e.
Proof.
  unfold unreadable, parse_notes. destruct (json_loads data); [|by eexists].
  apply malformed_Raise.
Qed.

Lemma load_notes_unreadable w data :
  files w !! NOTES_FILE = Some data -> unreadable data ->
  exists e, load_notes w = ([], reported e w).
Proof.
  intros Hf [e He]%unreadable_Raise. exists e.
  by rewrite load_notes_eq, Hf, He.
Qed.

(** C4. [load_notes] has no raising outcome: on a store without the file it
    returns the empty list and reports nothing; on a file that cannot be parsed
    into notes it reports the failure on the error channel and returns the
    empty list; otherwise it returns the parsed notes; it never changes a
    file. *)
Theorem load_notes_resilient (w : World) :
  (files w !! NOTES_FILE = None -> load_notes w = ([], w)) /\
  (forall data, files w !! NOTES_FILE = Some data -> unreadable data ->
     exists e, load_notes w = ([], reported e w)) /\
  (forall data notes, files w !! NOTES_FILE = Some data ->
     parse_notes data = Ok notes -> load_notes w = (notes, w)) /\
  (exists notes log,
     load_notes w = (notes, mkWorld (files w) (stderr w ++ log)) /\
     (notes = [] \/ log = [])).
Proof.
  split; [|split; [|split]].
  - intros Hf. by rewrite load_notes_eq, Hf.
  - apply load_notes_unreadable.
  - intros data notes Hf Hp. by rewrite load_notes_eq, Hf, Hp.
  - rewrite load_notes_eq. destruct w as [fs err]. cbn [files stderr].
    destruct (fs !! NOTES_FILE) as [data|].
    + destruct (parse_notes data) as [notes|e].
      * exists notes, []. rewrite app_nil_r. by split; [|right].
      * exists [], [hata e]. by split; [|left].
    + exists [], []. rewrite app_nil_r. by split; [|left].
Qed.

(** C9, as the code has it. When the document holds a record that lacks a
    required field, building that note fails and the failure takes the one
    resilience path of [load_notes]: the load reports it and returns the empty
    list, without any of the other records, and raises nothing. *)
Theorem load_notes_missing_field (w : World) (data : string) (rs : list json) :
  files w !! NOTES_FILE = Some data ->
  json_loads data = Some (JArr rs) ->
  (exists kw k, JObj kw ∈ rs /\ k ∈ required_fields /\ dict_get k kw = None) ->
  exists e, load_notes w = ([], reported e w).
Proof.
  intros Hf Hd (kw & k & Hin & Hk & Hget).
  assert (exists e, parse_notes data = Raise e) as [e He].
  { unfold parse_notes. rewrite Hd. cbn.
    apply (mapR_Raise _ _ (JObj kw)); [done|]. by apply (Note_of_kwargs_missing kw k). }
  exists e. by rewrite load_notes_eq, Hf, He.
Qed.

End Loading.

(** ** Saving *)

Section Saving.
Context `{ReLib} `{JsonLib} `{HomeDir}.


(** C8. A saved collection is loaded back as it was: the same notes, equal
    field for field, and so the same set of notes whatever the order they were
    saved in. *)
Theorem save_load_round_trip (w : World) (notes : list Note) :
  round_trips notes ->
  load_notes (save_notes notes w).2 = (notes, (save_notes notes w).2) /\
  (forall n, n ∈ (load_notes (save_notes notes w).2).1 <-> n ∈ notes) /\
  (forall notes', notes' ≡ₚ notes -> round_trips notes' ->
     (load_notes (save_notes notes' w).2).1 ≡ₚ notes).
Proof.
  intros Hrt. split; [by apply load_after_save|]. split.
  - by rewrite load_after_save.
  - intros notes' Hp Hrt'. by rewrite load_after_save.
Qed.

End Saving.

(** ** Mutators *)

Lemma mark_loop_hit note_id notes :
  (mark_loop note_id notes).2 = true <-> exists n, n ∈ notes /\ id n = note_id.
Proof.
  induction notes as [|n notes IH]; cbn.
  - split; [done|]. intros (n & Hn & _). by apply elem_of_nil in Hn.
  - case_bool_decide as Hid; cbn.
    + split; [|done]. intros _. exists n. split; [left|done].
    + destruct (mark_loop note_id notes) as [rest hit]. cbn in *. rewrite IH.
      split; intros (m & Hm & Hidm); exists m; (split; [|done]).
      * by right.
      * apply elem_of_cons in Hm as [->|Hm]; done.
Qed.

Lemma mark_loop_first note_id l1 n l2 :
  id n = note_id -> (forall m, m ∈ l1 -> id m <> note_id) ->
  mark_loop note_id (l1 ++ n :: l2)%list = ((l1 ++ set_done n :: l2)%list, true).
Proof.
  intros Hn. induction l1 as [|m l1 IH]; intros Hl1; cbn.
  - by rewrite bool_decide_eq_true_2.
  - rewrite bool_decide_eq_false_2 by (apply Hl1; left).
    rewrite IH; [done|]. intros m' Hm'. apply Hl1. by right.
Qed.

Lemma mark_loop_miss note_id notes :
  (mark_loop note_id notes).2 = false -> (mark_loop note_id notes).1 = notes.
Proof.
  induction notes as [|n notes IH]; [done|]. cbn.
  case_bool_decide; [done|].
  destruct (mark_loop note_id notes) as [rest hit]. cbn in *.
  intros Hhit. by rewrite IH.
Qed.

(** A second scan finds the note the first one marked, and changes nothing. *)
Lemma mark_loop_again note_id notes :
  (mark_loop note_id notes).2 = true ->
  mark_loop note_id (mark_loop note_id notes).1 = ((mark_loop note_id notes).1, true) /\
  exists n, List.find (fun n => bool_decide (id n = note_id)) (mark_loop note_id notes).1
            = Some n /\ done n = true.
Proof.
  induction notes as [|n notes IH]; [done|]. cbn.
  case_bool_decide as Hid; cbn.
  - intros _. rewrite bool_decide_eq_true_2 by done.
    split; [by destruct n|]. by exists (set_done n).
  - destruct (mark_loop note_id notes) as [rest hit]. cbn in *.
    intros Hhit. destruct (IH Hhit) as [IH1 IH2].
    rewrite bool_decide_eq_false_2 by done. by rewrite IH1.
Qed.

Section Mutators.
Context `{ReLib} `{JsonLib} `{HomeDir}.

Lemma mark_done_eq note_id w :
  mark_done note_id w =
  let notes := (load_notes w).1 in
  let w1 := (load_notes w).2 in
  if (mark_loop note_id notes).2
  then (true, (save_notes (mark_loop note_id notes).1 w1).2)
  else (false, w1).
Proof.
  unfold mark_done, mbind, io_mbind, io_bind, mret, io_mret, io_ret.
  destruct (load_notes w) as [notes w1]. cbn.
  destruct (mark_loop note_id notes) as [notes' [|]]; cbn; [|done].
  by destruct (save_notes notes' w1).
Qed.

(** C6. [mark_done] returns true exactly when a loaded note has the id.  Then
    the first such note is set done and the collection is saved; otherwise
    nothing is saved.  A second call with the same id returns true again,
    reports nothing, and leaves the note done. *)
Theorem mark_done_spec (w : World) (note_id : string) :
  typed_store w ->
  let notes := (load_notes w).1 in
  let r := mark_done note_id w in
  (r.1 = true <-> exists n, n ∈ notes /\ id n = note_id) /\
  (r.1 = false -> r.2 = (load_notes w).2 /\ files r.2 = files w) /\
  (forall l1 n l2,
     notes = (l1 ++ n :: l2)%list -> id n = note_id ->
     (forall m, m ∈ l1 -> id m <> note_id) ->
     r.1 = true /\
     r.2 = (save_notes (l1 ++ set_done n :: l2)%list (load_notes w).2).2) /\
  (r.1 = true -> round_trips (mark_loop note_id notes).1 ->
     let r' := mark_done note_id r.2 in
     r'.1 = true /\ stderr r'.2 = stderr r.2 /\
     (load_notes r.2).1 = (mark_loop note_id notes).1 /\
     files r'.2 !! NOTES_FILE = files r.2 !! NOTES_FILE /\
     exists n, List.find (fun n => bool_decide (id n = note_id)) (load_notes r.2).1
               = Some n /\ done n = true).
Proof.
  intros _ notes r. subst r. rewrite mark_done_eq. cbv zeta. fold notes.
  split; [|split; [|split]].
  - rewrite <- mark_loop_hit. by destruct (mark_loop note_id notes).2.
  - destruct (mark_loop note_id notes).2; [done|]. intros _.
    split; [done|apply load_notes_files].
  - intros l1 n l2 Hnotes Hn Hl1. rewrite Hnotes.
    by rewrite mark_loop_first.
  - destruct (mark_loop note_id notes).2 eqn:Hhit; [|done]. intros _ Hrt.
    cbv zeta. cbn [fst snd].
    rewrite mark_done_eq. cbv zeta. rewrite load_after_save by done. cbn [fst snd].
    destruct (mark_loop_again note_id notes Hhit) as [-> Hfind]. cbn [fst snd].
    split; [done|]. split; [by rewrite !save_notes_eq|]. split; [done|].
    split; [by rewrite !save_notes_lookup|done].
Qed.

Lemma clear_done_eq w :
  clear_done w =
  let notes := (load_notes w).1 in
  let kept := List.filter (fun n => negb (done n)) notes in
  (Z.of_nat (length notes) - Z.of_nat (length kept),
   (save_notes kept (load_notes w).2).2).
Proof.
  unfold clear_done, mbind, io_mbind, io_bind, mret, io_mret, io_ret.
  destruct (load_notes w) as [notes w1]. cbn [fst snd].
  by match goal with |- context [save_notes ?l w1] => destruct (save_notes l w1) end.
Qed.

Lemma add_note_eq fr text tags priority w :
  add_note fr text tags priority w =
  let note :=
    mkNote (short_uuid fr) (strip text) (now_isoformat fr) false
      (Some (map strip (List.filter (fun t => negb (bool_decide (strip t = ""))) tags)))
      priority in
  (note, (save_notes ((load_notes w).1 ++ [note])%list (load_notes w).2).2).
Proof.
  unfold add_note, mbind, io_mbind, io_bind, mret, io_mret, io_ret.
  destruct (load_notes w) as [notes w1]. cbn [fst snd].
  by match goal with |- context [save_notes ?l w1] => destruct (save_notes l w1) end.
Qed.

(** C2, as the code has it. [add_note] checks no range: the note it creates,
    appends and saves has the priority it was given, whatever that is.  The
    range is the argument parser's: the [add] command with a priority outside
    0..3 exits with status 2 having loaded and saved nothing, and with a
    priority inside it adds the note with that priority. *)
Theorem add_note_priority (fr : Fresh) (text : string) (p : Z) (w : World) :
  (forall tags,
     let r := add_note fr text tags p w in
     priority r.1 = p /\
     (typed_store w ->
      files r.2 !! NOTES_FILE = Some (dump_notes ((load_notes w).1 ++ [r.1])%list))) /\
  (forall targ, ~ (0 <= p <= 3) ->
     main_add fr text targ p w = (2, mkWorld (files w) (stderr w ++ [usage_error]))) /\
  (forall targ, 0 <= p <= 3 ->
     let tags := if bool_decide (targ = "") then [] else split "," targ in
     (main_add fr text targ p w).1 = 0 /\
     (main_add fr text targ p w).2 = (add_note fr text tags p w).2 /\
     priority (add_note fr text tags p w).1 = p).
Proof.
  split; [|split].
  - intros tags r. subst r. rewrite add_note_eq. cbv zeta. cbn [fst snd priority].
    split; [done|]. intros _. by rewrite save_notes_lookup.
  - intros targ Hp. unfold main_add, priority_choice.
    replace ((0 <=? p)%Z && (p <? 4)%Z)%bool with false; [done|].
    symmetry. apply andb_false_iff. rewrite Z.leb_gt, Z.ltb_ge. lia.
  - intros targ Hp. unfold main_add, priority_choice.
    replace ((0 <=? p)%Z && (p <? 4)%Z)%bool with true
      by (symmetry; apply andb_true_iff; rewrite Z.leb_le, Z.ltb_lt; lia).
    unfold mbind, io_mbind, io_bind, mret, io_mret, io_ret.
    rewrite add_note_eq. cbv zeta. by cbn [fst snd priority].
Qed.

(** C10. When the store exists and cannot be parsed, the load gives the empty
    list and the mutator saves over the file: [clear_done] returns 0 and
    leaves the serialized empty collection, [add_note] leaves the serialized
    collection of the one new note; what the file held is gone. *)
Theorem corrupt_store_overwritten (w : World) (data : string) :
  files w !! NOTES_FILE = Some data -> unreadable data ->
  (load_notes w).1 = [] /\
  (clear_done w).1 = 0 /\
  (clear_done w).2 = (save_notes [] (load_notes w).2).2 /\
  files (clear_done w).2 !! NOTES_FILE = Some (dump_notes []) /\
  (round_trips [] -> (load_notes (clear_done w).2).1 = []) /\
  (forall fr text tags p,
     let r := add_note fr text tags p w in
     r.2 = (save_notes [r.1] (load_notes w).2).2 /\
     files r.2 !! NOTES_FILE = Some (dump_notes [r.1]) /\
     (round_trips [r.1] -> (load_notes r.2).1 = [r.1])).
Proof.
  intros Hf Hbad. destruct (load_notes_unreadable w data Hf Hbad) as [e He].
  split; [by rewrite He|]. rewrite clear_done_eq, He. cbv zeta.
  cbn [fst snd List.filter length].
  split; [done|]. split; [done|]. split; [apply save_notes_lookup|].
  split; [intros Hrt; by rewrite load_after_save|].
  intros fr text tags p. rewrite add_note_eq, ?He. cbv zeta.
  cbn [fst snd app].
  split; [done|]. split; [apply save_notes_lookup|].
  intros Hrt. by rewrite load_after_save.
Qed.

End Mutators.

(** ** Statistics *)

Lemma dict_get_set_eq {V} k (v : V) d : dict_get k (dict_set k v d) = Some v.
Proof.
  unfold dict_get. induction d as [|[k' v'] d IH]; cbn.
  - by rewrite String.eqb_refl.
  - destruct (String.eqb k' k) eqn:Hk; cbn; [by rewrite String.eqb_refl|].
    by rewrite Hk.
Qed.

Lemma dict_get_set_ne {V} k k' (v : V) d :
  k <> k' -> dict_get k' (dict_set k v d) = dict_get k' d.
Proof.
  intros Hne. unfold dict_get. induction d as [|[k0 v0] d IH]; cbn.
  - by rewrite (proj2 (String.eqb_neq k k')).
  - destruct (String.eqb k0 k) eqn:Hk; cbn.
    + apply String.eqb_eq in Hk as ->.
      by rewrite (proj2 (String.eqb_neq k k')).
    + destruct (String.eqb k0 k'); [done|]. apply IH.
Qed.

Lemma dict_get_None {V} k (d : list (string * V)) : dict_get k d = None <-> k ∉ d.*1.
Proof.
  unfold dict_get. induction d as [|[k0 v0] d IH]; cbn.
  - split; [intros _; apply not_elem_of_nil|done].
  - rewrite not_elem_of_cons. destruct (String.eqb_spec k0 k) as [->|Hne]; cbn.
    + split; [done|]. by intros [? _].
    + rewrite IH. split; [intros ?; split; [congruence|done]|by intros [_ ?]].
Qed.

Lemma dict_get_Some {V} k (v : V) d : NoDup d.*1 -> dict_get k d = Some v <-> (k, v) ∈ d.
Proof.
  unfold dict_get. induction d as [|[k0 v0] d IH]; cbn.
  - intros _. split; [done|]. intros Hin. by apply elem_of_nil in Hin.
  - intros [Hk0 Hnd]%NoDup_cons. rewrite elem_of_cons.
    destruct (String.eqb_spec k0 k) as [->|Hne]; cbn.
    + split; [intros [= ->]; by left|]. intros [[= ->]|Hin]; [done|].
      destruct Hk0. apply list_elem_of_fmap. by exists (k, v).
    + rewrite (IH Hnd). split; [by right|]. intros [[= ? ?]|?]; [done|done].
Qed.

Lemma dict_set_keys {V} k (v : V) d :
  (dict_set k v d).*1 = if bool_decide (k ∈ d.*1) then d.*1 else (d.*1 ++ [k])%list.
Proof.
  induction d as [|[k0 v0] d IH]; cbn.
  - by rewrite bool_decide_eq_false_2 by apply not_elem_of_nil.
  - destruct (String.eqb_spec k0 k) as [->|Hne]; cbn.
    + by rewrite bool_decide_eq_true_2 by left.
    + rewrite IH. case_bool_decide as Hin.
      * by rewrite bool_decide_eq_true_2 by (by right).
      * rewrite bool_decide_eq_false_2; [done|].
        rewrite not_elem_of_cons. split; [done|done].
Qed.

Lemma dict_set_NoDup {V} k (v : V) d : NoDup d.*1 -> NoDup (dict_set k v d).*1.
Proof.
  intros Hnd. rewrite dict_set_keys. case_bool_decide as Hin; [done|].
  apply NoDup_app. split; [done|]. split; [|apply NoDup_singleton].
  intros x Hx ->%list_elem_of_singleton. done.
Qed.

Lemma occurrences_app t l1 l2 :
  occurrences t (l1 ++ l2) = occurrences t l1 + occurrences t l2.
Proof. unfold occurrences. rewrite List.filter_app, length_app. lia. Qed.

Lemma occurrences_pos t l : t ∈ l <-> 0 < occurrences t l.
Proof.
  unfold occurrences. induction l as [|x l IH]; cbn.
  - split; [intros Hin; by apply elem_of_nil in Hin|lia].
  - rewrite elem_of_cons. destruct (String.eqb_spec x t) as [->|Hne]; cbn.
    + split; [lia|by left].
    + rewrite IH. split; [by intros [?|?]|by right].
Qed.

Lemma occurrences_0 t l : t ∉ l -> occurrences t l = 0.
Proof.
  rewrite occurrences_pos. unfold occurrences. lia.
Qed.

Lemma occurrences_singleton t t' :
  occurrences t' [t] = if bool_decide (t = t') then 1 else 0.
Proof.
  unfold occurrences. cbn. destruct (String.eqb_spec t t') as [->|Hne].
  - by rewrite bool_decide_eq_true_2.
  - by rewrite bool_decide_eq_false_2.
Qed.

Lemma counts_step d seen t : counts d seen -> counts (count_tag d t) (seen ++ [t]).
Proof.
  intros [Hnd Hget]. split; [by apply dict_set_NoDup|].
  intros t'. unfold count_tag. rewrite occurrences_app, occurrences_singleton.
  destruct (decide (t = t')) as [<-|Hne].
  - rewrite dict_get_set_eq, bool_decide_eq_true_2 by set_solver.
    rewrite (bool_decide_eq_true_2 (t = t)) by done.
    f_equal. rewrite Hget.
    case_bool_decide as Hin; cbn; [done|].
    rewrite (occurrences_0 t seen Hin). lia.
  - rewrite dict_get_set_ne, Hget by done.
    rewrite (bool_decide_eq_false_2 (t = t')) by done.
    rewrite Z.add_0_r.
    assert (bool_decide (t' ∈ (seen ++ [t])%list) = bool_decide (t' ∈ seen)) as ->
      by (apply bool_decide_ext; set_solver).
    done.
Qed.

Lemma counts_foldl ts : forall d seen,
  counts d seen -> counts (foldl count_tag d ts) (seen ++ ts).
Proof.
  induction ts as [|t ts IH]; intros d seen Hc; cbn.
  - by rewrite app_nil_r.
  - rewrite (cons_middle t seen ts), app_assoc. by apply IH, counts_step.
Qed.

Lemma counts_by_tag notes : forall d seen,
  counts d seen ->
  counts (foldl (fun by_tag n => foldl count_tag by_tag (tags_or_empty n)) d notes)
         (seen ++ concat (map tags_or_empty notes)).
Proof.
  induction notes as [|n notes IH]; intros d seen Hc; cbn.
  - by rewrite app_nil_r.
  - rewrite app_assoc. by apply IH, counts_foldl.
Qed.

Lemma tag_order_not_after a b : not_after tuple_lt tag_key a b <-> tag_order a b.
Proof.
  unfold not_after, tag_order. rewrite tuple_lt_false. simpl. intuition lia.
Qed.

Lemma foldl_max_ge x xs : x <= foldl Z.max x xs /\ forall y, y ∈ xs -> y <= foldl Z.max x xs.
Proof.
  revert x. induction xs as [|z xs IH]; intros x; cbn.
  - split; [lia|]. intros y Hy. by apply elem_of_nil in Hy.
  - destruct (IH (Z.max x z)) as [IH1 IH2]. split; [lia|].
    intros y [->|Hy]%elem_of_cons; [lia|by apply IH2].
Qed.

Lemma foldl_max_in x xs : foldl Z.max x xs ∈ x :: xs.
Proof.
  revert x. induction xs as [|z xs IH]; intros x; cbn; [left|].
  specialize (IH (Z.max x z)). apply elem_of_cons in IH as [->|IH].
  - destruct (Z.max_spec x z) as [[_ ->]|[_ ->]]; [right; left|left].
  - by do 2 right.
Qed.

Section Statistics.
Context `{ReLib} `{JsonLib} `{HomeDir}.

Lemma stats_eq w :
  (stats w).1 =
  let notes := (load_notes w).1 in
  mkStats (Z.of_nat (length notes))
    (Z.of_nat (length notes) - Z.of_nat (length (List.filter done notes)))
    (Z.of_nat (length (List.filter done notes)))
    (max_default0 (map priority notes))
    (sorted tuple_lt tag_key
       (foldl (fun by_tag n => foldl count_tag by_tag (tags_or_empty n)) [] notes)).
Proof.
  unfold stats, mbind, io_mbind, io_bind, mret, io_mret, io_ret.
  by destruct (load_notes w).
Qed.

(** C7. [stats] counts the loaded notes, the done ones and, as their
    difference, the pending ones; gives the greatest priority, 0 when there is
    no note; and gives for each tag that occurs the number of its occurrences
    over all notes, each tag once, ordered by descending count and then
    ascending name.  Three notes, one of them done, with the priorities 0, 2, 2
    and the tags [a], [a, b], [] give total 3, pending 2, done 1, highest
    priority 2 and the tags a: 2, b: 1. *)
Theorem stats_spec (w : World) :
  typed_store w ->
  let notes := (load_notes w).1 in
  let s := (stats w).1 in
  let all_tags := concat (map tags_or_empty notes) in
  st_total s = Z.of_nat (length notes) /\
  st_done s = Z.of_nat (length (List.filter done notes)) /\
  st_pending s = st_total s - st_done s /\
  (notes = [] -> st_highest_priority s = 0) /\
  (notes <> [] ->
     (exists n, n ∈ notes /\ priority n = st_highest_priority s) /\
     forall n, n ∈ notes -> priority n <= st_highest_priority s) /\
  NoDup (st_tags s).*1 /\
  (forall t c, (t, c) ∈ st_tags s <-> t ∈ all_tags /\ c = occurrences t all_tags) /\
  StronglySorted tag_order (st_tags s) /\
  (forall n1 n2 n3,
     notes = [n1; n2; n3] ->
     map priority notes = [0; 2; 2] ->
     map tags_or_empty notes = [["a"]; ["a"; "b"]; []] ->
     length (List.filter done notes) = 1%nat ->
     s = mkStats 3 2 1 2 [("a", 2); ("b", 1)]).
Proof.
  intros _ notes s all_tags. subst s. rewrite stats_eq. cbv zeta. fold notes.
  cbn [st_total st_done st_pending st_highest_priority st_tags].
  set (by_tag := foldl _ [] notes).
  assert (counts by_tag all_tags) as [Hnd Hget].
  { apply (counts_by_tag notes [] []). split; [constructor|done]. }
  split; [done|]. split; [done|]. split; [done|]. split; [by intros ->|].
  split; [|split; [|split; [|split]]].
  - intros Hne. destruct notes as [|n l] eqn:Hn; [done|]. cbn [map max_default0].
    split.
    + pose proof (foldl_max_in (priority n) (map priority l)) as Hin.
      change (priority n :: map priority l) with (map priority (n :: l)) in Hin.
      apply list_elem_of_fmap in Hin as (m & Hm & Hin). by exists m.
    + destruct (foldl_max_ge (priority n) (map priority l)) as [Hge1 Hge2].
      intros m [->|Hm]%elem_of_cons; [done|].
      by apply Hge2, list_elem_of_fmap_2.
  - by rewrite sorted_perm.
  - intros t c. rewrite sorted_perm, <- (dict_get_Some t c by_tag Hnd), Hget.
    case_bool_decide; naive_solver.
  - apply (StronglySorted_weaken (not_after tuple_lt tag_key));
      [intros x y; apply tag_order_not_after|].
    apply sorted_StronglySorted.
    + apply tuple_lt_irrefl.
    + apply tuple_lt_trans.
    + apply tuple_lt_total.
  - intros n1 n2 n3 Hnotes Hprio Htags Hdone. subst by_tag.
    rewrite Hdone, Hprio. rewrite Hnotes in *.
    cbn [map] in Htags. injection Htags as Ht1 Ht2 Ht3.
    cbn [foldl length]. by rewrite Ht1, Ht2, Ht3.
Qed.

End Statistics.

(** * Further properties of the code *)

(** ** The store under the operations *)

Lemma filter_negb_length {A} (f : A -> bool) l :
  length l = (length (List.filter f l) + length (List.filter (fun x => negb (f x)) l))%nat.
Proof.
  induction l as [|x l IH]; [done|]. cbn. destruct (f x); cbn; lia.
Qed.

Lemma filter_filter_same {A} (f : A -> bool) l :
  List.filter f (List.filter f l) = List.filter f l.
Proof.
  induction l as [|x l IH]; [done|]. cbn. destruct (f x) eqn:Hx; [|done].
  cbn. by rewrite Hx, IH.
Qed.

Section StoreFacts.
Context `{ReLib} `{JsonLib} `{HomeDir}.

Lemma load_notes_missing w : files w !! NOTES_FILE = None -> load_notes w = ([], w).
Proof. intros Hf. by rewrite load_notes_eq, Hf. Qed.

Lemma load_notes_again w : (load_notes (load_notes w).2).1 = (load_notes w).1.
Proof.
  rewrite (load_notes_eq (load_notes w).2), load_notes_files, (load_notes_eq w).
  destruct (files w !! NOTES_FILE) as [data|]; [|done].
  by destruct (parse_notes data).
Qed.

Lemma stats_snd w : (stats w).2 = (load_notes w).2.
Proof.
  unfold stats, mbind, io_mbind, io_bind, mret, io_mret, io_ret.
  by destruct (load_notes w).
Qed.

Lemma search_notes_snd pattern include_done w :
  (search_notes pattern include_done w).2 = (load_notes w).2.
Proof.
  unfold search_notes, mbind, io_mbind, io_bind, mret, io_mret, io_ret.
  by destruct (load_notes w).
Qed.

Lemma export_notes_eq fmt w :
  export_notes fmt w =
  (if bool_decide (fmt = "md") then
     Exported (String.concat nl
                 (["# QuickNotes"; ""] ++
                  map md_line (sorted triple_lt export_key (load_notes w).1))%list)
   else if bool_decide (fmt = "json") then Exported (dump_notes (load_notes w).1)
   else ValueError "format desteklenmiyor (md|json)",
   (load_notes w).2).
Proof.
  unfold export_notes, mbind, io_mbind, io_bind, mret, io_mret, io_ret.
  by destruct (load_notes w).
Qed.

(** X1. [clear_done] returns the number of done notes and saves the pending
    ones in their loaded order; the store then loads as exactly those notes,
    and a second [clear_done] returns 0. *)
Theorem clear_done_spec (w : World) :
  typed_store w ->
  let notes := (load_notes w).1 in
  let pending := List.filter (fun n => negb (done n)) notes in
  let r := clear_done w in
  r.1 = Z.of_nat (length (List.filter done notes)) /\
  files r.2 !! NOTES_FILE = Some (dump_notes pending) /\
  (round_trips pending ->
     (load_notes r.2).1 = pending /\ (clear_done r.2).1 = 0).
Proof.
  intros _ notes pending r. subst r. rewrite clear_done_eq. cbv zeta.
  fold notes. fold pending. cbn [fst snd].
  split; [rewrite (filter_negb_length done notes); fold pending; lia|].
  split; [apply save_notes_lookup|].
  intros Hrt. rewrite clear_done_eq. cbv zeta. rewrite load_after_save by done.
  cbn [fst snd]. split; [done|].
  subst pending. rewrite filter_filter_same. lia.
Qed.

(** X2. [save_notes] changes the store file and nothing else: every other
    path keeps its content, and the temporary file is gone afterwards, also
    one left behind by an earlier interrupted save; nothing is reported. *)
Theorem save_notes_frame (w : World) (notes : list Note) :
  let w' := (save_notes notes w).2 in
  (forall p, p <> NOTES_FILE -> p <> tmp_path -> files w' !! p = files w !! p) /\
  files w' !! tmp_path = None /\
  stderr w' = stderr w.
Proof.
  intros w'. subst w'. rewrite save_notes_eq. cbn [snd files stderr].
  pose proof tmp_path_ne as Hne.
  split; [|split; [|done]].
  - intros p Hp Htmp.
    by rewrite lookup_insert_ne, lookup_delete_ne, lookup_insert_ne.
  - by rewrite lookup_insert_ne, lookup_delete_eq.
Qed.

(** X3. On a store that does not exist yet: [mark_done] returns false and
    creates no file; [search_notes] returns the empty list, also for a pattern
    that does not compile; [stats] is all zeros with no tag; the markdown
    export is the heading alone; but [clear_done], returning 0, creates the
    store with the empty collection. *)
Theorem missing_store (w : World) :
  files w !! NOTES_FILE = None ->
  (forall note_id, mark_done note_id w = (false, w)) /\
  (forall pattern include_done, search_notes pattern include_done w = (Ok [], w)) /\
  stats w = (mkStats 0 0 0 0 [], w) /\
  export_notes "md" w = (Exported ("# QuickNotes" ++ nl), w) /\
  (clear_done w).1 = 0 /\
  files (clear_done w).2 !! NOTES_FILE = Some (dump_notes []).
Proof.
  intros Hf. pose proof (load_notes_missing w Hf) as Hl.
  split; [|split; [|split; [|split]]].
  - intros note_id. by rewrite mark_done_eq, Hl.
  - intros pattern include_done.
    unfold search_notes, mbind, io_mbind, io_bind, mret, io_mret, io_ret.
    by rewrite Hl.
  - unfold stats, mbind, io_mbind, io_bind, mret, io_mret, io_ret. by rewrite Hl.
  - by rewrite export_notes_eq, Hl.
  - rewrite clear_done_eq, Hl. cbv zeta. cbn [fst snd List.filter length].
    split; [done|apply save_notes_lookup].
Qed.

(** X4. The queries write nothing: after [search_notes], [stats] or
    [export_notes] the world is the one the load left, with every file as it
    was; and a load can be repeated, it returns the same notes. *)
Theorem queries_write_nothing (w : World) :
  (forall pattern include_done,
     (search_notes pattern include_done w).2 = (load_notes w).2) /\
  (stats w).2 = (load_notes w).2 /\
  (forall fmt, (export_notes fmt w).2 = (load_notes w).2) /\
  files (load_notes w).2 = files w /\
  (load_notes (load_notes w).2).1 = (load_notes w).1.
Proof.
  split; [intros; apply search_notes_snd|]. split; [apply stats_snd|].
  split; [intros fmt; by rewrite export_notes_eq|].
  split; [apply load_notes_files|apply load_notes_again].
Qed.

End StoreFacts.

(** ** Export *)

Lemma triple_lt_irrefl a : triple_lt a a = false.
Proof.
  unfold triple_lt. rewrite tuple_lt_irrefl, andb_false_r, orb_false_r.
  by destruct a.1.
Qed.

Lemma triple_lt_trans a b c :
  triple_lt a b = true -> triple_lt b c = true -> triple_lt a c = true.
Proof.
  unfold triple_lt. pose proof (tuple_lt_trans a.2 b.2 c.2) as Ht.
  destruct a.1, b.1, c.1; cbn; try done.
Qed.

Lemma triple_lt_total a b : triple_lt a b = false -> triple_lt b a = false -> a = b.
Proof.
  unfold triple_lt. destruct a as [d1 k1], b as [d2 k2]. cbn.
  destruct d1, d2; cbn; try done; intros H1 H2; f_equal; by apply tuple_lt_total.
Qed.

Lemma export_order_not_after a b :
  not_after triple_lt export_key a b <-> export_order a b.
Proof.
  unfold export_order. rewrite <- search_order_not_after.
  unfold not_after, triple_lt, export_key, search_key. cbn.
  destruct (done a), (done b); cbn; intuition congruence.
Qed.

Lemma same_export_rank_key d p c n :
  same_export_rank d p c n = bool_decide (export_key n = (d, (- p, c))).
Proof.
  unfold same_export_rank, export_key. apply bool_decide_ext.
  split; [intros (-> & -> & ->); done|]. intros [= ? ? ?]. repeat split; [done|lia|done].
Qed.

Lemma filter_all_done l :
  Forall (fun y => done y = true) l ->
  List.filter (fun n => negb (done n)) l = [] /\ List.filter done l = l.
Proof.
  induction 1 as [|y l Hy Hall [IH1 IH2]]; [done|]. cbn. rewrite Hy. cbn.
  by rewrite IH1, IH2.
Qed.

(** In an export order the pending notes all stand before the done ones. *)
Lemma export_order_blocks l :
  StronglySorted export_order l ->
  l = (List.filter (fun n => negb (done n)) l ++ List.filter done l)%list.
Proof.
  induction 1 as [|x l Hs IH Hx]; [done|]. cbn.
  destruct (done x) eqn:Hdx; cbn; [|by rewrite <- IH].
  assert (Forall (fun y => done y = true) l) as Hall.
  { eapply Forall_impl; [exact Hx|]. intros y [[? _]|[? _]]; congruence. }
  destruct (filter_all_done l Hall) as [-> ->]. done.
Qed.

Section Exporting.
Context `{ReLib} `{JsonLib} `{HomeDir}.

(** X5. The markdown export is the heading, an empty line and one entry for
    each loaded note, each note once: the pending notes first, then the done
    ones, each group by descending priority and then ascending [created_at],
    notes equal on all three keys in their loaded order. *)
Theorem export_md_spec (w : World) :
  typed_store w ->
  let notes := (load_notes w).1 in
  exists order,
    (export_notes "md" w).1 =
      Exported (String.concat nl ("# QuickNotes" :: "" :: map md_line order)) /\
    order ≡ₚ notes /\
    StronglySorted export_order order /\
    order = (List.filter (fun n => negb (done n)) order ++ List.filter done order)%list /\
    (forall d p c, List.filter (same_export_rank d p c) order =
                   List.filter (same_export_rank d p c) notes).
Proof.
  intros _ notes. exists (sorted triple_lt export_key notes).
  assert (StronglySorted export_order (sorted triple_lt export_key notes)) as Hs.
  { apply (StronglySorted_weaken (not_after triple_lt export_key));
      [intros x y; apply export_order_not_after|].
    apply sorted_StronglySorted.
    - apply triple_lt_irrefl.
    - apply triple_lt_trans.
    - apply triple_lt_total. }
  split; [by rewrite export_notes_eq|]. split; [apply sorted_perm|].
  split; [done|]. split; [by apply export_order_blocks|].
  intros d p c. rewrite !(filter_ext _ _ (same_export_rank_key d p c)).
  apply sorted_stable, triple_lt_irrefl.
Qed.

(** X6. The JSON export is the serialization [save_notes] writes: exported
    from a store that was just saved it is the content of the store file, byte
    for byte; and in general it parses back into the loaded notes. *)
Theorem export_json_round_trip (w : World) (notes : list Note) :
  (round_trips notes ->
     (export_notes "json" (save_notes notes w).2).1 = Exported (dump_notes notes) /\
     files (save_notes notes w).2 !! NOTES_FILE = Some (dump_notes notes)) /\
  (typed_store w -> round_trips (load_notes w).1 ->
     exists out, (export_notes "json" w).1 = Exported out /\
                 parse_notes out = Ok (load_notes w).1).
Proof.
  split.
  - intros Hrt. rewrite export_notes_eq, load_after_save by done.
    split; [done|apply save_notes_lookup].
  - intros _ Hrt. eexists. rewrite export_notes_eq. split; [done|].
    by apply parse_notes_dump.
Qed.

(** X7. For a format other than "md" and "json", spelled exactly so,
    [export_notes] raises [ValueError]; it has loaded the store by then, so an
    unreadable store is reported first. *)
Theorem export_unsupported (w : World) (fmt : string) :
  fmt <> "md" -> fmt <> "json" ->
  export_notes fmt w =
    (ValueError "format desteklenmiyor (md|json)", (load_notes w).2) /\
  (forall data, files w !! NOTES_FILE = Some data -> unreadable data ->
     exists e, (export_notes fmt w).2 = reported e w).
Proof.
  intros Hmd Hjson. rewrite export_notes_eq.
  rewrite !bool_decide_eq_false_2 by done. split; [done|].
  intros data Hf Hbad. destruct (load_notes_unreadable w data Hf Hbad) as [e He].
  exists e. by rewrite He.
Qed.

End Exporting.

(** ** Statistics, again *)

Lemma sum_counts_dict_set k v d :
  sum_counts (dict_set k v d) = sum_counts d + v - default 0 (dict_get k d).
Proof.
  unfold sum_counts, dict_get. induction d as [|[k' v'] d IH]; cbn; [lia|].
  destruct (String.eqb k' k); cbn; [lia|]. rewrite IH. lia.
Qed.

Lemma sum_counts_foldl ts : forall d,
  sum_counts (foldl count_tag d ts) = sum_counts d + Z.of_nat (length ts).
Proof.
  induction ts as [|t ts IH]; intros d; cbn [foldl length]; [lia|].
  rewrite IH. unfold count_tag. rewrite sum_counts_dict_set. lia.
Qed.

Lemma sum_counts_by_tag notes : forall d,
  sum_counts (foldl (fun by_tag n => foldl count_tag by_tag (tags_or_empty n)) d notes) =
  sum_counts d + Z.of_nat (length (concat (map tags_or_empty notes))).
Proof.
  induction notes as [|n notes IH]; intros d; cbn [foldl map concat length]; [lia|].
  rewrite IH, sum_counts_foldl, length_app. lia.
Qed.

Lemma sum_counts_perm d1 d2 : d1 ≡ₚ d2 -> sum_counts d1 = sum_counts d2.
Proof.
  unfold sum_counts. induction 1 as [|x|x y|]; cbn; [done|lia|lia|congruence].
Qed.

Section Statistics2.
Context `{ReLib} `{JsonLib} `{HomeDir}.

(** X8. The figures of [stats] fit together: done and pending are counts of
    loaded notes that add up to the total, neither is negative; every tag in
    the result was counted at least once, and the counts add up to the number
    of tags over all notes. *)
Theorem stats_consistent (w : World) :
  typed_store w ->
  let notes := (load_notes w).1 in
  let s := (stats w).1 in
  0 <= st_done s <= st_total s /\
  st_pending s = Z.of_nat (length (List.filter (fun n => negb (done n)) notes)) /\
  st_total s = st_pending s + st_done s /\
  (forall t c, (t, c) ∈ st_tags s -> 1 <= c) /\
  sum_counts (st_tags s) = Z.of_nat (length (concat (map tags_or_empty notes))).
Proof.
  intros _ notes s. subst s. rewrite stats_eq. cbv zeta. fold notes.
  cbn [st_total st_done st_pending st_tags].
  pose proof (filter_negb_length done notes) as Hlen.
  split; [lia|]. split; [lia|]. split; [lia|].
  set (by_tag := foldl _ [] notes).
  assert (counts by_tag (concat (map tags_or_empty notes))) as [Hnd Hget].
  { apply (counts_by_tag notes [] []). split; [constructor|done]. }
  split.
  - intros t c. rewrite sorted_perm, <- (dict_get_Some t c by_tag Hnd), Hget.
    case_bool_decide as Hin; [|done]. intros [= <-].
    apply occurrences_pos in Hin. lia.
  - rewrite (sum_counts_perm _ by_tag) by apply sorted_perm.
    subst by_tag. by rewrite sum_counts_by_tag.
Qed.

End Statistics2.

(** ** The mutators, again *)

Lemma mark_loop_erase note_id notes :
  map erase_done (mark_loop note_id notes).1 = map erase_done notes.
Proof.
  induction notes as [|n notes IH]; [done|]. cbn.
  case_bool_decide; cbn; [done|].
  destruct (mark_loop note_id notes) as [rest hit]. cbn in *. by rewrite IH.
Qed.

Lemma mark_loop_done_count note_id notes :
  (length (List.filter done notes)
   <= length (List.filter done (mark_loop note_id notes).1)
   <= S (length (List.filter done notes)))%nat.
Proof.
  induction notes as [|n notes IH]; [cbn; lia|]. cbn.
  case_bool_decide; cbn.
  - destruct (done n); cbn; lia.
  - destruct (mark_loop note_id notes) as [rest hit]. cbn in *.
    destruct (done n); cbn; lia.
Qed.

Lemma mark_loop_keeps_done note_id notes :
  Forall2 (fun a b => done a = true -> done b = true) notes (mark_loop note_id notes).1.
Proof.
  induction notes as [|n notes IH]; [constructor|]. cbn.
  case_bool_decide; cbn.
  - constructor; [done|]. by apply Forall_Forall2_diag, Forall_true.
  - destruct (mark_loop note_id notes) as [rest hit]. cbn in *. by constructor.
Qed.

(** The first note with the id, when there is one. *)
Lemma first_with_id note_id notes :
  (exists n, n ∈ notes /\ id n = note_id) ->
  exists l1 n l2, notes = (l1 ++ n :: l2)%list /\ id n = note_id /\
                  forall m, m ∈ l1 -> id m <> note_id.
Proof.
  induction notes as [|x notes IH]; intros (n & Hn & Hid).
  - by apply elem_of_nil in Hn.
  - destruct (decide (id x = note_id)) as [Hx|Hx].
    + exists [], x, notes. split; [done|]. split; [done|].
      intros m Hm. by apply elem_of_nil in Hm.
    + apply elem_of_cons in Hn as [->|Hn]; [done|].
      destruct IH as (l1 & m & l2 & -> & Hm & Hl1); [by exists n|].
      exists (x :: l1), m, l2. split; [done|]. split; [done|].
      intros m' [->|Hm']%elem_of_cons; [done|by apply Hl1].
Qed.

Section Mutators2.
Context `{ReLib} `{JsonLib} `{HomeDir}.

(** X9. [mark_done] touches nothing but a done flag: the collection it saves
    has the notes of the loaded one in the same order, equal in every field
    but [done]; no note that was done becomes pending, and at most one more
    note is done. *)
Theorem mark_done_frame (w : World) (note_id : string) :
  typed_store w ->
  let notes := (load_notes w).1 in
  let r := mark_done note_id w in
  exists notes',
    (r.1 = true -> files r.2 !! NOTES_FILE = Some (dump_notes notes')) /\
    (r.1 = false -> notes' = notes) /\
    map erase_done notes' = map erase_done notes /\
    Forall2 (fun a b => done a = true -> done b = true) notes notes' /\
    (length (List.filter done notes')
     <= S (length (List.filter done notes)))%nat.
Proof.
  intros _ notes r. exists (mark_loop note_id notes).1.
  subst r. rewrite mark_done_eq. cbv zeta. fold notes.
  split; [|split; [|split; [|split]]].
  - destruct (mark_loop note_id notes).2; [|done]. intros _. apply save_notes_lookup.
  - destruct (mark_loop note_id notes).2 eqn:Hhit; [done|]. intros _.
    by apply mark_loop_miss.
  - apply mark_loop_erase.
  - apply mark_loop_keeps_done.
  - apply mark_loop_done_count.
Qed.

(** X10. With distinct ids, marking a note done and then clearing removes
    exactly the done notes, that note among them: [clear_done] returns at
    least 1, and the collection it saves holds the loaded notes that were
    pending and have another id, and no other note. *)
Theorem mark_then_clear (w : World) (note_id : string) :
  typed_store w ->
  let notes := (load_notes w).1 in
  NoDup (map id notes) ->
  (mark_done note_id w).1 = true ->
  round_trips (mark_loop note_id notes).1 ->
  let r := clear_done (mark_done note_id w).2 in
  1 <= r.1 /\
  exists kept,
    files r.2 !! NOTES_FILE = Some (dump_notes kept) /\
    forall n, n ∈ kept <-> n ∈ notes /\ done n = false /\ id n <> note_id.
Proof.
  intros _ notes Hnd Hhit Hrt. cbv zeta.
  rewrite mark_done_eq in Hhit |- *. cbv zeta in Hhit |- *. fold notes in Hhit |- *.
  destruct (mark_loop note_id notes).2 eqn:Hloop; [|done]. cbn [fst snd].
  apply mark_loop_hit, first_with_id in Hloop as (l1 & m & l2 & Hnotes & Hm & Hl1).
  rewrite Hnotes in Hrt |- *. rewrite mark_loop_first in Hrt |- * by done.
  cbn [fst] in Hrt |- *.
  rewrite clear_done_eq. cbv zeta. rewrite load_after_save by done. cbn [fst snd].
  assert (forall n, n ∈ l2 -> id n <> note_id) as Hl2.
  { intros n Hn Hid. rewrite Hnotes, fmap_app, fmap_cons in Hnd.
    apply NoDup_app in Hnd as (_ & _ & Hnd). apply NoDup_cons in Hnd as [Hnd _].
    apply Hnd. rewrite Hm, <- Hid. by apply list_elem_of_fmap_2. }
  split.
  - pose proof (filter_negb_length done (l1 ++ set_done m :: l2)%list) as Hlen.
    assert (1 <= length (List.filter done (l1 ++ set_done m :: l2)%list))%nat.
    { rewrite List.filter_app, length_app. cbn. lia. }
    lia.
  - eexists. split; [apply save_notes_lookup|].
    intros n. rewrite list_elem_of_In, List.filter_In, <- list_elem_of_In.
    rewrite !elem_of_app, !elem_of_cons, negb_true_iff.
    split.
    + intros [[Hn|[->|Hn]] Hd]; [|done|]; (split; [auto|]); (split; [done|]); auto.
    + intros ([Hn|[->|Hn]] & Hd & Hid); [|done|]; (split; [auto|done]).
Qed.

(** X11. [add_note] does not look at the stored ids.  With an id that no
    stored note has, distinct ids stay distinct.  With an id that a stored
    note has, both notes are stored, and [mark_done] on that id marks the older
    one and leaves the new one pending. *)
Theorem add_note_ids (fr : Fresh) (text : string) (tags : list string) (p : Z)
    (w : World) :
  typed_store w ->
  let notes := (load_notes w).1 in
  let r := add_note fr text tags p w in
  round_trips (notes ++ [r.1])%list ->
  (load_notes r.2).1 = (notes ++ [r.1])%list /\
  (NoDup (map id notes) -> short_uuid fr ∉ map id notes ->
     NoDup (map id (load_notes r.2).1)) /\
  (short_uuid fr ∈ map id notes ->
     let r' := mark_done (short_uuid fr) r.2 in
     r'.1 = true /\
     files r'.2 !! NOTES_FILE =
       Some (dump_notes ((mark_loop (short_uuid fr) notes).1 ++ [r.1])%list) /\
     done r.1 = false).
Proof.
  intros _ notes r. subst r. rewrite add_note_eq. cbv zeta. fold notes.
  cbn [fst snd]. set (note := mkNote _ _ _ _ _ _). intros Hrt.
  rewrite load_after_save by done. cbn [fst].
  split; [done|]. split.
  - intros Hnd Hfresh. rewrite fmap_app. apply NoDup_app. split; [done|].
    split; [|apply NoDup_singleton].
    intros x Hx ->%list_elem_of_singleton. done.
  - intros (m & Hm & Hin)%list_elem_of_fmap. cbv zeta.
    rewrite mark_done_eq. cbv zeta. rewrite load_after_save by done. cbn [fst snd].
    destruct (first_with_id (short_uuid fr) notes) as (l1 & n & l2 & Hnotes & Hn & Hl1);
      [by exists m|].
    rewrite Hnotes, <- app_assoc, <- app_comm_cons.
    rewrite !mark_loop_first by done. cbn [fst snd].
    rewrite <- app_assoc, <- app_comm_cons.
    split; [done|]. split; [apply save_notes_lookup|done].
Qed.

End Mutators2.

(** ** Seeding *)

Lemma samples_stripped s : s ∈ samples -> strip s = s.
Proof.
  unfold samples. intros Hs. set_unfold.
  repeat (destruct Hs as [->|Hs]; [by vm_compute|]). done.
Qed.

Lemma filter_length_le {A} (f : A -> bool) l : (length (List.filter f l) <= length l)%nat.
Proof. induction l as [|x l IH]; [done|]. cbn. destruct (f x); cbn; lia. Qed.

Section Seeding.
Context `{ReLib} `{JsonLib} `{HomeDir}.

Lemma seed_loop_eq draws i k w :
  seed_loop draws i (S k) w =
  let r1 := add_note (draw_fresh (draws i)) (nth (draw_choice (draws i)) samples "")
                     (draw_sample (draws i)) (draw_priority (draws i)) w in
  let r2 := seed_loop draws (S i) k r1.2 in
  (r1.1 :: r2.1, r2.2).
Proof.
  cbn [seed_loop]. unfold mbind, io_mbind, io_bind, mret, io_mret, io_ret.
  destruct (add_note _ _ _ _ w) as [note w1]. cbn [fst snd].
  by destruct (seed_loop draws (S i) k w1).
Qed.

Lemma seed_loop_appends draws k : forall i w,
  let r := seed_loop draws i k w in
  (forall j, (1 <= j <= length r.1)%nat ->
     round_trips ((load_notes w).1 ++ take j r.1)%list) ->
  length r.1 = k /\ (load_notes r.2).1 = ((load_notes w).1 ++ r.1)%list.
Proof.
  induction k as [|k IH]; intros i w; cbv zeta.
  - intros _. cbn. by rewrite app_nil_r.
  - rewrite seed_loop_eq. cbv zeta. cbn [fst snd length].
    set (r1 := add_note _ _ _ _ w). intros Hrt.
    assert ((load_notes r1.2).1 = ((load_notes w).1 ++ [r1.1])%list) as Hl1.
    { specialize (Hrt 1%nat ltac:(lia)). cbn [take] in Hrt. rewrite take_0 in Hrt.
      revert Hrt. subst r1. rewrite add_note_eq. cbv zeta. cbn [fst snd].
      intros Hrt. by rewrite load_after_save. }
    destruct (IH (S i) r1.2) as [Hlen Hload].
    { intros j Hj. rewrite Hl1, <- app_assoc. apply (Hrt (S j)). lia. }
    split; [by rewrite Hlen|]. by rewrite Hload, Hl1, <- app_assoc.
Qed.

Lemma seed_loop_seeded draws k : forall i w,
  (forall j, (i <= j < i + k)%nat -> valid_draw (draws j)) ->
  Forall seeded (seed_loop draws i k w).1.
Proof.
  induction k as [|k IH]; intros i w Hvalid; [constructor|].
  rewrite seed_loop_eq. cbv zeta. cbn [fst]. constructor.
  - destruct (Hvalid i ltac:(lia)) as (Hc & _ & Hlen & _ & Hp).
    rewrite add_note_eq. cbv zeta. cbn [fst]. unfold seeded, tags_or_empty.
    cbn [text priority done tags from_option Datatypes.id].
    assert (nth (draw_choice (draws i)) samples "" ∈ samples) as Hin
      by (by apply list_elem_of_In, nth_In).
    rewrite (samples_stripped _ Hin). split; [done|]. split; [done|]. split; [done|].
    rewrite length_map.
    etrans; [apply filter_length_le|done].
  - apply IH. intros j Hj. apply Hvalid. lia.
Qed.

(** X12. [seed_random_notes] adds one note per round and returns them: for
    [n <= 0] nothing happens; otherwise the store then loads as the notes it
    held followed by the [n] new ones in the order they were made; each new
    note is pending, has one of the sample texts as it stands, a priority from
    0 to 3 and at most two tags. *)
Theorem seed_random_notes_spec (draws : nat -> Draw) (n : Z) (w : World) :
  typed_store w ->
  let notes := (load_notes w).1 in
  let r := seed_random_notes draws n w in
  (forall i, (i < Z.to_nat n)%nat -> valid_draw (draws i)) ->
  (forall j, (1 <= j <= length r.1)%nat -> round_trips (notes ++ take j r.1)%list) ->
  length r.1 = Z.to_nat n /\
  (load_notes r.2).1 = (notes ++ r.1)%list /\
  Forall seeded r.1 /\
  (n <= 0 -> r = ([], w)).
Proof.
  intros _ notes r Hvalid Hrt. subst r notes. unfold seed_random_notes in *.
  destruct (seed_loop_appends draws (Z.to_nat n) 0 w Hrt) as [Hlen Hload].
  split; [done|]. split; [done|]. split.
  - apply seed_loop_seeded. intros j Hj. apply Hvalid. lia.
  - intros Hn. by replace (Z.to_nat n) with 0%nat by lia.
Qed.

End Seeding.

(** ** Trimming *)

Lemma string_app_cons x a b : String x a ++ b = String x (a ++ b).
Proof. reflexivity. Qed.

Lemma string_app_assoc a b c : (a ++ b) ++ c = a ++ (b ++ c).
Proof.
  induction a as [|x a IH]; [done|]. by rewrite !string_app_cons, IH.
Qed.

Lemma string_app_nil_r a : a ++ "" = a.
Proof. induction a as [|x a IH]; [done|]. by rewrite string_app_cons, IH. Qed.

Lemma string_app_length a b :
  String.length (a ++ b) = (String.length a + String.length b)%nat.
Proof.
  induction a as [|x a IH]; [done|]. rewrite string_app_cons. cbn. by rewrite IH.
Qed.

Lemma string_rev_app_eq a b : String.rev_app a b = String.rev a ++ b.
Proof.
  unfold String.rev. revert b. induction a as [|x a IH]; intros b; [done|].
  cbn [String.rev_app].
  by rewrite (IH (String x b)), (IH (String x "")), string_app_assoc.
Qed.

Lemma string_rev_cons x a : String.rev (String x a) = String.rev a ++ String x "".
Proof. unfold String.rev at 1. cbn [String.rev_app]. apply string_rev_app_eq. Qed.

Lemma string_rev_app a b : String.rev (a ++ b) = String.rev b ++ String.rev a.
Proof.
  induction a as [|x a IH].
  - by rewrite string_app_nil_r.
  - by rewrite string_app_cons, !string_rev_cons, IH, string_app_assoc.
Qed.

Lemma string_rev_involutive a : String.rev (String.rev a) = a.
Proof.
  induction a as [|x a IH]; [done|].
  by rewrite string_rev_cons, string_rev_app, IH.
Qed.

Lemma string_rev_length a : String.length (String.rev a) = String.length a.
Proof.
  induction a as [|x a IH]; [done|].
  rewrite string_rev_cons, string_app_length, IH. cbn. lia.
Qed.

Lemma prefix_split w s :
  String.prefix w s = true -> s = w ++ drop_string (String.length w) s.
Proof.
  revert s. induction w as [|x w IH]; intros s; [done|].
  destruct s as [|y s]; [done|]. cbn [String.prefix].
  destruct (ascii_dec x y) as [->|]; [|done]. intros Hp.
  rewrite string_app_cons. cbn [String.length drop_string]. f_equal. by apply IH.
Qed.

Lemma prefix_app w s r : String.prefix w s = true -> String.prefix w (s ++ r) = true.
Proof.
  revert s. induction w as [|x w IH]; intros s; [by destruct (s ++ r)|].
  destruct s as [|y s]; [done|]. rewrite string_app_cons. cbn [String.prefix].
  destruct (ascii_dec x y); [apply IH|done].
Qed.

Lemma drop_string_length n s :
  String.length (drop_string n s) = (String.length s - n)%nat.
Proof.
  revert s. induction n as [|n IH]; intros s; cbn; [lia|].
  destruct s as [|x s]; [done|]. apply IH.
Qed.

Section Strip.
Context (ws : list string).
Hypothesis ws_nonempty : Forall (fun w => w <> "") ws.

Lemma strip1_Some s s' :
  strip1 ws s = Some s' ->
  exists w, s = w ++ s' /\ (String.length s' < String.length s)%nat.
Proof.
  unfold strip1. destruct (List.find _ ws) as [w|] eqn:Hfind; [|done].
  intros [= <-]. apply find_some in Hfind as [Hin Hp].
  exists w. split; [by apply prefix_split|].
  rewrite Forall_forall in ws_nonempty.
  apply list_elem_of_In, ws_nonempty in Hin.
  apply prefix_split in Hp. apply (f_equal String.length) in Hp.
  rewrite string_app_length in Hp. destruct w; [done|].
  cbn [String.length] in Hp |- *. lia.
Qed.

Lemma strip1_None_prefix s r : strip1 ws (s ++ r) = None -> strip1 ws s = None.
Proof.
  unfold strip1.
  destruct (List.find _ ws) as [w|] eqn:Hfind; [done|]. intros _.
  destruct (List.find (fun w => String.prefix w s) ws) as [w|] eqn:Hs; [|done].
  apply find_some in Hs as [Hin Hp].
  pose proof (prefix_app w s r Hp) as Hp'.
  by rewrite (find_none _ _ Hfind w Hin) in Hp'.
Qed.

(** The fuel is enough: nothing is left to strip. *)
Lemma lstrip_go_done fuel : forall s,
  (String.length s <= fuel)%nat -> strip1 ws (lstrip_go ws fuel s) = None.
Proof.
  induction fuel as [|fuel IH]; intros s Hlen; cbn.
  - destruct s; [|cbn in Hlen; lia]. unfold strip1.
    destruct (List.find _ ws) as [w|] eqn:Hfind; [|done].
    apply find_some in Hfind as [Hin Hp]. rewrite Forall_forall in ws_nonempty.
    apply list_elem_of_In, ws_nonempty in Hin. by destruct w.
  - destruct (strip1 ws s) as [s'|] eqn:Hs; [|done].
    apply IH. apply strip1_Some in Hs as (w & _ & Hlt). lia.
Qed.

Lemma lstrip_go_suffix fuel : forall s, exists u, s = u ++ lstrip_go ws fuel s.
Proof.
  induction fuel as [|fuel IH]; intros s; cbn; [by exists ""|].
  destruct (strip1 ws s) as [s'|] eqn:Hs; [|by exists ""].
  apply strip1_Some in Hs as (w & -> & _). destruct (IH s') as [u Hu].
  exists (w ++ u). by rewrite string_app_assoc, <- Hu.
Qed.

Lemma lstrip_go_fixed fuel s : strip1 ws s = None -> lstrip_go ws fuel s = s.
Proof. intros Hs. destruct fuel; cbn; [done|]. by rewrite Hs. Qed.

End Strip.

Lemma whitespace_nonempty : Forall (fun w => w <> "") whitespace.
Proof. unfold whitespace. cbn. repeat constructor; discriminate. Qed.

Lemma rev_whitespace_nonempty : Forall (fun w => w <> "") (map String.rev whitespace).
Proof. unfold whitespace. cbn. repeat constructor; discriminate. Qed.

Lemma strip_trimmed s : trimmed (strip s).
Proof.
  unfold trimmed, strip, rstrip.
  set (t := lstrip s).
  set (R := lstrip_go (map String.rev whitespace) (String.length t) (String.rev t)).
  assert (strip1 (map String.rev whitespace) R = None) as HR.
  { apply lstrip_go_done; [apply rev_whitespace_nonempty|].
    by rewrite string_rev_length. }
  split; [|by rewrite string_rev_involutive].
  destruct (lstrip_go_suffix (map String.rev whitespace) rev_whitespace_nonempty
              (String.length t) (String.rev t)) as [u Hu].
  fold R in Hu.
  assert (t = String.rev R ++ String.rev u) as Ht.
  { by rewrite <- string_rev_app, <- Hu, string_rev_involutive. }
  apply (strip1_None_prefix _ _ (String.rev u)). rewrite <- Ht.
  by apply lstrip_go_done; [apply whitespace_nonempty|].
Qed.

Lemma strip_fixed s : trimmed s -> strip s = s.
Proof.
  intros [Hl Hr]. unfold strip, rstrip, lstrip.
  rewrite (lstrip_go_fixed _ _ s Hl), (lstrip_go_fixed _ _ _ Hr).
  apply string_rev_involutive.
Qed.

Section Normalization.
Context `{ReLib} `{JsonLib} `{HomeDir}.

(** X13. The note [add_note] creates is pending and normalized: its text has
    no whitespace at either end; its tags are the given tags, stripped, in
    their order, without those that strip to the empty string, so no tag is
    empty or has whitespace at either end; stripping the stored text or a
    stored tag again changes nothing. *)
Theorem add_note_normalizes (fr : Fresh) (text0 : string) (tags0 : list string)
    (p : Z) (w : World) :
  let note := (add_note fr text0 tags0 p w).1 in
  done note = false /\
  text note = strip text0 /\ trimmed (text note) /\ strip (text note) = text note /\
  exists ts,
    tags note = Some ts /\
    ts = List.filter (fun t => negb (bool_decide (t = ""))) (map strip tags0) /\
    Forall (fun t => t <> "" /\ trimmed t /\ strip t = t) ts.
Proof.
  intros note. subst note. rewrite add_note_eq. cbv zeta.
  cbn [fst done text tags].
  pose proof (strip_trimmed text0) as Ht.
  split; [done|]. split; [done|]. split; [done|]. split; [by apply strip_fixed|].
  eexists. split; [done|]. split.
  - induction tags0 as [|t ts IH]; [done|]. cbn.
    destruct (bool_decide (strip t = "")); cbn; by rewrite IH.
  - apply Forall_forall. intros t (t0 & -> & Hin)%list_elem_of_fmap.
    apply list_elem_of_In, List.filter_In in Hin as [_ Hne].
    apply negb_true_iff, bool_decide_eq_false in Hne.
    pose proof (strip_trimmed t0) as Ht0.
    split; [done|]. split; [done|by apply strip_fixed].
Qed.

End Normalization.

(** ** Listing after a mutation *)

Section Listing.
Context `{ReLib} `{JsonLib} `{HomeDir}.

(** The [list] command: a search with the empty pattern. *)
Lemma search_notes_list include_done w :
  (search_notes "" include_done w).1 =
  Ok (sorted tuple_lt search_key
        (List.filter (fun n => include_done || negb (done n)) (load_notes w).1)).
Proof.
  by rewrite search_notes_eq, search_hits by (by left).
Qed.

(** X14. A note just added is listed, with or without the done notes; the
    listing holds besides it the notes it would have held before. *)
Theorem add_then_list (fr : Fresh) (text : string) (tags : list string) (p : Z)
    (w : World) (include_done : bool) :
  typed_store w ->
  let notes := (load_notes w).1 in
  let r := add_note fr text tags p w in
  round_trips (notes ++ [r.1])%list ->
  exists out,
    (search_notes "" include_done r.2).1 = Ok out /\
    r.1 ∈ out /\
    forall n, n ∈ out <->
      n = r.1 \/ (n ∈ notes /\ (include_done = true \/ done n = false)).
Proof.
  intros _ notes r. subst r. rewrite add_note_eq. cbv zeta. fold notes.
  cbn [fst snd]. set (note := mkNote _ _ _ _ _ _). intros Hrt.
  eexists. rewrite search_notes_list, load_after_save by done. cbn [fst].
  split; [done|].
  assert (forall n, n ∈ sorted tuple_lt search_key
                      (List.filter (fun n => include_done || negb (done n))
                         (notes ++ [note])%list) <->
                    n = note \/ (n ∈ notes /\ (include_done = true \/ done n = false)))
    as Hmem.
  { intros n. rewrite sorted_perm, list_elem_of_In, List.filter_In, <- list_elem_of_In.
    rewrite elem_of_app, list_elem_of_singleton, orb_true_iff, negb_true_iff.
    split.
    - intros [[Hn| ->] Hd]; [right|left]; done.
    - intros [->|[Hn Hd]]; [|by split; [left|]].
      split; [by right|]. by right. }
  split; [|done]. apply Hmem. by left.
Qed.

(** X15. With distinct ids, a note marked done leaves the listing of the
    pending notes and stays, as done, in the listing that includes the done
    ones. *)
Theorem done_then_list (w : World) (note_id : string) :
  typed_store w ->
  let notes := (load_notes w).1 in
  NoDup (map id notes) ->
  (mark_done note_id w).1 = true ->
  round_trips (mark_loop note_id notes).1 ->
  let w' := (mark_done note_id w).2 in
  exists pending all,
    (search_notes "" false w').1 = Ok pending /\
    (search_notes "" true w').1 = Ok all /\
    (forall n, n ∈ pending -> id n <> note_id) /\
    (exists n, n ∈ all /\ id n = note_id /\ done n = true).
Proof.
  intros _ notes Hnd Hhit Hrt. cbv zeta.
  rewrite mark_done_eq in Hhit |- *. cbv zeta in Hhit |- *. fold notes in Hhit |- *.
  destruct (mark_loop note_id notes).2 eqn:Hloop; [|done]. cbn [fst snd].
  apply mark_loop_hit, first_with_id in Hloop as (l1 & m & l2 & Hnotes & Hm & Hl1).
  rewrite Hnotes in Hrt |- *. rewrite mark_loop_first in Hrt |- * by done.
  cbn [fst] in Hrt |- *.
  assert (forall n, n ∈ l2 -> id n <> note_id) as Hl2.
  { intros n Hn Hid. rewrite Hnotes, fmap_app, fmap_cons in Hnd.
    apply NoDup_app in Hnd as (_ & _ & Hnd). apply NoDup_cons in Hnd as [Hnd _].
    apply Hnd. rewrite Hm, <- Hid. by apply list_elem_of_fmap_2. }
  do 2 eexists. rewrite !search_notes_list, load_after_save by done. cbn [fst].
  split; [done|]. split; [done|]. split.
  - intros n. rewrite sorted_perm, list_elem_of_In, List.filter_In, <- list_elem_of_In.
    rewrite elem_of_app, elem_of_cons. cbn [orb].
    intros [[Hn|[->|Hn]] Hd]; [by apply Hl1|done|by apply Hl2].
  - exists (set_done m). rewrite sorted_perm.
    split; [|done].
    apply list_elem_of_In, List.filter_In. split; [|done].
    apply list_elem_of_In, elem_of_app. right. left.
Qed.

End Listing.

(** * The specification's examples, on the reference instances *)

(** A concrete store is in the domain of the model: its parse is computed. *)
Ltac typed_by_computation :=
  let Hf := fresh in
  intros ? ? Hf; vm_compute in Hf; injection Hf as <-; vm_compute; discriminate.

Section Examples.
#[local] Existing Instance RefJson.ref_json.
#[local] Existing Instance LiteralRe.literal_re.
#[local] Existing Instance example_home.

(** The laws of C3 hold of the reference engine, on a note of the example. *)
Lemma matches_spec_witness :
  let n := mkNote "7c9e6679" "buy milk" "2024-05-01T09:30:00" false (Some ["errand"]) 0 in
  matches n "milk" = Ok true /\
  matches n "MILK" = Ok true /\
  matches n "errand" = Ok true /\
  matches n "coffee" = Ok false.
Proof.
  intros n.
  exact (proj2 (proj2 (proj2 (matches_spec n "")))
           literal_re_law eq_refl eq_refl).
Defined.

(** A store holding one well-formed record and one that lacks its text. *)
Lemma load_notes_drops_well_formed_records :
  let good := mkNote "a1b2c3d4" "buy milk" "2024-05-01T09:30:00" false (Some ["errand"]) 2 in
  let doc := JArr [asdict good;
                   JObj [("id", JStr "e5f6a7b8");
                         ("created_at", JStr "2024-05-02T08:00:00")]] in
  let w := mkWorld {[ NOTES_FILE := json_dumps doc ]} [] in
  json_loads (json_dumps doc) = Some doc /\
  Note_of_json (asdict good) = Ok good /\
  load_notes w = ([], reported (TypeError (Missing "text")) w) /\
  good ∉ (load_notes w).1.
Proof.
  intros good doc w.
  assert (load_notes w = ([], reported (TypeError (Missing "text")) w)) as Hl
    by (vm_compute; reflexivity).
  split; [vm_compute; reflexivity|]. split; [vm_compute; reflexivity|].
  split; [done|]. rewrite Hl. apply not_elem_of_nil.
Qed.

Lemma load_notes_missing_field_witness :
  let doc := JArr [asdict (mkNote "a1b2c3d4" "buy milk" "2024-05-01T09:30:00" false
                                  (Some ["errand"]) 2);
                   JObj [("id", JStr "e5f6a7b8");
                         ("created_at", JStr "2024-05-02T08:00:00")]] in
  let w := mkWorld {[ NOTES_FILE := json_dumps doc ]} [] in
  exists e, load_notes w = ([], reported e w).
Proof.
  intros doc w.
  apply (load_notes_missing_field w (json_dumps doc)
           [asdict (mkNote "a1b2c3d4" "buy milk" "2024-05-01T09:30:00" false
                           (Some ["errand"]) 2);
            JObj [("id", JStr "e5f6a7b8"); ("created_at", JStr "2024-05-02T08:00:00")]]).
  - vm_compute; reflexivity.
  - vm_compute; reflexivity.
  - exists [("id", JStr "e5f6a7b8"); ("created_at", JStr "2024-05-02T08:00:00")], "text".
    split; [right; left|]. split; [right; left|reflexivity].
Defined.

(** [add_note] given the priority 7 on an empty store. *)
Lemma add_note_stores_priority_7 :
  let w := mkWorld ∅ [] in
  let r := add_note (mkFresh "0f3c2a1b" "2024-05-01T09:30:00") " call mom " ["family"; " "] 7 w in
  r.1 = mkNote "0f3c2a1b" "call mom" "2024-05-01T09:30:00" false (Some ["family"]) 7 /\
  stderr r.2 = [] /\
  load_notes r.2 = ([r.1], r.2) /\
  ~ (0 <= priority r.1 <= 3).
Proof.
  intros w r.
  split; [vm_compute; reflexivity|]. split; [vm_compute; reflexivity|].
  split; [vm_compute; reflexivity|].
  vm_compute. intros [_ Hle]. by apply Hle.
Qed.

Lemma search_notes_spec_witness :
  let A := mkNote "aaaa0001" "write report" "2024-05-02T10:00:00" false None 1 in
  let B := mkNote "bbbb0002" "pay rent" "2024-05-03T10:00:00" true (Some ["home"]) 3 in
  let C := mkNote "cccc0003" "buy milk" "2024-05-01T10:00:00" false (Some ["errand"]) 1 in
  let w := mkWorld {[ NOTES_FILE := dump_notes [A; B; C] ]} [] in
  (search_notes "" true w).1 = Ok [B; C; A].
Proof.
  intros A B C w.
  assert (typed_store w) as Hty.
  { typed_by_computation. }
  apply (proj2 (search_notes_spec w "" true Hty) A B C); reflexivity.
Defined.

Lemma load_notes_resilient_witness :
  let w := mkWorld {[ NOTES_FILE := "{oops" ]} [] in
  load_notes (mkWorld ∅ []) = ([], mkWorld ∅ []) /\
  exists e, load_notes w = ([], reported e w).
Proof.
  intros w. split.
  - apply (proj1 (load_notes_resilient (mkWorld ∅ []))). reflexivity.
  - apply (proj1 (proj2 (load_notes_resilient w)) "{oops"); vm_compute; reflexivity.
Defined.

Lemma mark_done_spec_witness :
  let a := mkNote "aaaa0001" "write report" "2024-05-02T10:00:00" false None 1 in
  let b := mkNote "bbbb0002" "pay rent" "2024-05-03T10:00:00" false (Some ["home"]) 3 in
  let w := mkWorld {[ NOTES_FILE := dump_notes [a; b] ]} [] in
  let r := mark_done "bbbb0002" w in
  let r' := mark_done "bbbb0002" r.2 in
  r'.1 = true /\ stderr r'.2 = stderr r.2 /\
  (load_notes r.2).1 = [a; set_done b] /\
  files r'.2 !! NOTES_FILE = files r.2 !! NOTES_FILE /\
  exists n, List.find (fun n => bool_decide (id n = "bbbb0002")) (load_notes r.2).1 = Some n
            /\ done n = true.
Proof.
  intros a b w r r'.
  assert (r.1 = true) as Hhit by (vm_compute; reflexivity).
  assert (round_trips (mark_loop "bbbb0002" (load_notes w).1).1) as Hrt
    by (vm_compute; reflexivity).
  assert (typed_store w) as Hty.
  { typed_by_computation. }
  exact (proj2 (proj2 (proj2 (mark_done_spec w "bbbb0002" Hty))) Hhit Hrt).
Defined.

Lemma stats_spec_witness :
  let n1 := mkNote "aaaa0001" "write report" "2024-05-02T10:00:00" false (Some ["a"]) 0 in
  let n2 := mkNote "bbbb0002" "pay rent" "2024-05-03T10:00:00" true (Some ["a"; "b"]) 2 in
  let n3 := mkNote "cccc0003" "buy milk" "2024-05-01T10:00:00" false None 2 in
  let w := mkWorld {[ NOTES_FILE := dump_notes [n1; n2; n3] ]} [] in
  (stats w).1 = mkStats 3 2 1 2 [("a", 2); ("b", 1)].
Proof.
  intros n1 n2 n3 w.
  assert ((load_notes w).1 = [n1; n2; n3]) as Hload by (vm_compute; reflexivity).
  assert (typed_store w) as Hty.
  { typed_by_computation. }
  apply (proj2 (proj2 (proj2 (proj2 (proj2 (proj2 (proj2 (proj2 (stats_spec w Hty))))))))
           n1 n2 n3 Hload); rewrite Hload; reflexivity.
Defined.

Lemma save_load_round_trip_witness :
  let a := mkNote "aaaa0001" "write report" "2024-05-02T10:00:00" false None 1 in
  let b := mkNote "bbbb0002" "pay rent" "2024-05-03T10:00:00" true (Some ["home"; "money"]) 3 in
  let w := mkWorld {[ NOTES_FILE := "{oops" ]} [] in
  load_notes (save_notes [a; b] w).2 = ([a; b], (save_notes [a; b] w).2).
Proof.
  intros a b w.
  assert (round_trips [a; b]) as Hrt by (vm_compute; reflexivity).
  exact (proj1 (save_load_round_trip w [a; b] Hrt)).
Defined.

Lemma corrupt_store_overwritten_witness :
  let w := mkWorld {[ NOTES_FILE := "{oops" ]} [] in
  (clear_done w).1 = 0 /\
  files (clear_done w).2 !! NOTES_FILE = Some "[]" /\
  let r := add_note (mkFresh "0f3c2a1b" "2024-05-01T09:30:00") "call mom" [] 1 w in
  files r.2 !! NOTES_FILE = Some (dump_notes [r.1]).
Proof.
  intros w.
  assert (files w !! NOTES_FILE = Some "{oops") as Hf by (vm_compute; reflexivity).
  assert (unreadable "{oops") as Hbad by exact I.
  pose proof (corrupt_store_overwritten w "{oops" Hf Hbad) as (_ & H0 & _ & Hc & _ & Ha).
  split; [exact H0|]. split; [exact Hc|].
  exact (proj1 (proj2 (Ha (mkFresh "0f3c2a1b" "2024-05-01T09:30:00") "call mom" [] 1))).
Defined.

Lemma add_note_priority_witness :
  let w := mkWorld {[ NOTES_FILE := "{oops" ]} [] in
  main_add (mkFresh "0f3c2a1b" "2024-05-01T09:30:00") "call mom" "family" 7 w
  = (2, mkWorld (files w) (stderr w ++ [usage_error])).
Proof.
  intros w.
  apply (proj1 (proj2 (add_note_priority (mkFresh "0f3c2a1b" "2024-05-01T09:30:00")
                         "call mom" 7 w)) "family").
  lia.
Defined.

(** The example of the specification: two done notes and three pending. *)
Lemma clear_done_spec_witness :
  let n1 := mkNote "aaaa0001" "write report" "2024-05-02T10:00:00" true None 1 in
  let n2 := mkNote "bbbb0002" "pay rent" "2024-05-03T10:00:00" false (Some ["home"]) 3 in
  let n3 := mkNote "cccc0003" "buy milk" "2024-05-01T10:00:00" false None 0 in
  let n4 := mkNote "dddd0004" "call mom" "2024-05-04T10:00:00" true None 2 in
  let n5 := mkNote "eeee0005" "fix bike" "2024-05-05T10:00:00" false None 0 in
  let w := mkWorld {[ NOTES_FILE := dump_notes [n1; n2; n3; n4; n5] ]} [] in
  (clear_done w).1 = 2 /\
  (load_notes (clear_done w).2).1 = [n2; n3; n5] /\
  (clear_done (clear_done w).2).1 = 0.
Proof.
  intros n1 n2 n3 n4 n5 w.
  assert (typed_store w) as Hty by typed_by_computation.
  assert (round_trips (List.filter (fun n => negb (done n)) (load_notes w).1)) as Hrt
    by (vm_compute; reflexivity).
  destruct (clear_done_spec w Hty) as (H1 & _ & H3).
  destruct (H3 Hrt) as [H4 H5].
  split; [rewrite H1; vm_compute; reflexivity|].
  split; [rewrite H4; vm_compute; reflexivity|exact H5].
Defined.

Lemma missing_store_witness :
  let w := mkWorld ∅ [] in
  mark_done "aaaa0001" w = (false, w) /\ search_notes "(" false w = (Ok [], w).
Proof.
  intros w.
  assert (files w !! NOTES_FILE = None) as Hf by reflexivity.
  destruct (missing_store w Hf) as (H1 & H2 & _).
  split; [apply H1|apply H2].
Defined.

Lemma export_md_spec_witness :
  let n1 := mkNote "aaaa0001" "write report" "2024-05-02T10:00:00" true None 1 in
  let n2 := mkNote "bbbb0002" "pay rent" "2024-05-03T10:00:00" false (Some ["home"]) 3 in
  let n3 := mkNote "cccc0003" "buy milk" "2024-05-01T10:00:00" false None 0 in
  let w := mkWorld {[ NOTES_FILE := dump_notes [n1; n2; n3] ]} [] in
  exists order,
    (export_notes "md" w).1 =
      Exported (String.concat nl ("# QuickNotes" :: "" :: map md_line order)) /\
    order ≡ₚ (load_notes w).1 /\
    StronglySorted export_order order /\
    order = (List.filter (fun n => negb (done n)) order ++ List.filter done order)%list /\
    (forall d p c, List.filter (same_export_rank d p c) order =
                   List.filter (same_export_rank d p c) (load_notes w).1).
Proof.
  intros n1 n2 n3 w.
  assert (typed_store w) as Hty by typed_by_computation.
  exact (export_md_spec w Hty).
Defined.

Lemma export_unsupported_witness :
  let w := mkWorld {[ NOTES_FILE := "{oops" ]} [] in
  export_notes "MD" w =
    (ValueError "format desteklenmiyor (md|json)", (load_notes w).2) /\
  exists e, (export_notes "MD" w).2 = reported e w.
Proof.
  intros w.
  assert ("MD" <> "md") as H1 by discriminate.
  assert ("MD" <> "json") as H2 by discriminate.
  assert (files w !! NOTES_FILE = Some "{oops") as Hf by (vm_compute; reflexivity).
  assert (unreadable "{oops") as Hbad by exact I.
  destruct (export_unsupported w "MD" H1 H2) as [H3 H4].
  split; [exact H3|exact (H4 "{oops" Hf Hbad)].
Defined.

Lemma stats_consistent_witness :
  let n1 := mkNote "aaaa0001" "write report" "2024-05-02T10:00:00" false (Some ["a"]) 0 in
  let n2 := mkNote "bbbb0002" "pay rent" "2024-05-03T10:00:00" true (Some ["a"; "b"]) 2 in
  let w := mkWorld {[ NOTES_FILE := dump_notes [n1; n2] ]} [] in
  sum_counts (st_tags (stats w).1) = 3.
Proof.
  intros n1 n2 w.
  assert (typed_store w) as Hty by typed_by_computation.
  destruct (stats_consistent w Hty) as (_ & _ & _ & _ & H5).
  rewrite H5. vm_compute. reflexivity.
Defined.

Lemma mark_done_frame_witness :
  let a := mkNote "aaaa0001" "write report" "2024-05-02T10:00:00" false None 1 in
  let b := mkNote "bbbb0002" "pay rent" "2024-05-03T10:00:00" false (Some ["home"]) 3 in
  let w := mkWorld {[ NOTES_FILE := dump_notes [a; b] ]} [] in
  exists notes',
    files (mark_done "bbbb0002" w).2 !! NOTES_FILE = Some (dump_notes notes') /\
    map erase_done notes' = map erase_done [a; b].
Proof.
  intros a b w.
  assert (typed_store w) as Hty by typed_by_computation.
  assert ((mark_done "bbbb0002" w).1 = true) as Hhit by (vm_compute; reflexivity).
  assert ((load_notes w).1 = [a; b]) as Hload by (vm_compute; reflexivity).
  destruct (mark_done_frame w "bbbb0002" Hty) as (notes' & H1 & _ & H3 & _).
  exists notes'. split; [exact (H1 Hhit)|]. rewrite H3. by rewrite Hload.
Defined.

Lemma mark_then_clear_witness :
  let a := mkNote "aaaa0001" "write report" "2024-05-02T10:00:00" false None 1 in
  let b := mkNote "bbbb0002" "pay rent" "2024-05-03T10:00:00" false (Some ["home"]) 3 in
  let w := mkWorld {[ NOTES_FILE := dump_notes [a; b] ]} [] in
  let r := clear_done (mark_done "bbbb0002" w).2 in
  1 <= r.1 /\
  exists kept,
    files r.2 !! NOTES_FILE = Some (dump_notes kept) /\
    forall n, n ∈ kept <-> n ∈ (load_notes w).1 /\ done n = false /\ id n <> "bbbb0002".
Proof.
  intros a b w.
  assert (typed_store w) as Hty by typed_by_computation.
  assert (NoDup (map id (load_notes w).1)) as Hnd.
  { assert ((load_notes w).1 = [a; b]) as -> by (vm_compute; reflexivity).
    cbn. repeat constructor; set_solver. }
  assert ((mark_done "bbbb0002" w).1 = true) as Hhit by (vm_compute; reflexivity).
  assert (round_trips (mark_loop "bbbb0002" (load_notes w).1).1) as Hrt
    by (vm_compute; reflexivity).
  exact (mark_then_clear w "bbbb0002" Hty Hnd Hhit Hrt).
Defined.

(** A second note made with the id of a stored one. *)
Lemma add_note_ids_witness :
  let a := mkNote "aaaa0001" "write report" "2024-05-02T10:00:00" false None 1 in
  let w := mkWorld {[ NOTES_FILE := dump_notes [a] ]} [] in
  let r := add_note (mkFresh "aaaa0001" "2024-05-06T10:00:00") "pay rent" [] 0 w in
  (load_notes r.2).1 = [a; r.1] /\
  (mark_done "aaaa0001" r.2).1 = true /\
  files (mark_done "aaaa0001" r.2).2 !! NOTES_FILE = Some (dump_notes [set_done a; r.1]) /\
  done r.1 = false.
Proof.
  intros a w r.
  assert (typed_store w) as Hty by typed_by_computation.
  assert ((load_notes w).1 = [a]) as Hload by (vm_compute; reflexivity).
  assert (round_trips ((load_notes w).1 ++ [r.1])%list) as Hrt
    by (vm_compute; reflexivity).
  assert ("aaaa0001" ∈ map id (load_notes w).1) as Hin by (rewrite Hload; left).
  destruct (add_note_ids (mkFresh "aaaa0001" "2024-05-06T10:00:00") "pay rent" [] 0 w
              Hty Hrt) as (H1 & _ & H3).
  destruct (H3 Hin) as (H4 & H5 & H6).
  rewrite Hload in H1, H5.
  exact (conj H1 (conj H4 (conj H5 H6))).
Defined.

Lemma seed_random_notes_spec_witness :
  let draws := fun i : nat =>
    match i with
    | O => mkDraw 5 ["acil"; "ev"] 2 (mkFresh "aaaa0001" "2024-05-06T10:00:00")
    | S _ => mkDraw 7 [] 0 (mkFresh "bbbb0002" "2024-05-06T10:00:01")
    end in
  let w := mkWorld ∅ [] in
  let r := seed_random_notes draws 2 w in
  length r.1 = 2%nat /\ (load_notes r.2).1 = r.1 /\ Forall seeded r.1.
Proof.
  intros draws w r.
  assert (typed_store w) as Hty by (by intros data k Hf).
  assert (forall i, (i < Z.to_nat 2)%nat -> valid_draw (draws i)) as Hvalid.
  { intros i Hi. change (Z.to_nat 2) with 2%nat in Hi. unfold valid_draw.
    destruct i as [|[|i]]; [| |lia]; cbn;
      (split; [lia|]); (split; [repeat constructor; set_solver|]);
      (split; [lia|]); (split; [set_solver|lia]). }
  assert (forall j, (1 <= j <= length r.1)%nat ->
            round_trips ((load_notes w).1 ++ take j r.1)%list) as Hrt.
  { intros j Hj. assert (length r.1 = 2%nat) as Hlen by (vm_compute; reflexivity).
    destruct j as [|[|[|j]]]; [lia| | |lia]; vm_compute; reflexivity. }
  destruct (seed_random_notes_spec draws 2 w Hty Hvalid Hrt) as (H1 & H2 & H3 & _).
  split; [exact H1|]. split; [exact H2|exact H3].
Defined.

Lemma add_then_list_witness :
  let a := mkNote "aaaa0001" "write report" "2024-05-02T10:00:00" true None 1 in
  let w := mkWorld {[ NOTES_FILE := dump_notes [a] ]} [] in
  let r := add_note (mkFresh "bbbb0002" "2024-05-06T10:00:00") "pay rent" ["home"] 3 w in
  exists out, (search_notes "" false r.2).1 = Ok out /\ r.1 ∈ out.
Proof.
  intros a w r.
  assert (typed_store w) as Hty by typed_by_computation.
  assert (round_trips ((load_notes w).1 ++ [r.1])%list) as Hrt
    by (vm_compute; reflexivity).
  destruct (add_then_list (mkFresh "bbbb0002" "2024-05-06T10:00:00") "pay rent" ["home"] 3
              w false Hty Hrt) as (out & H1 & H2 & _).
  exists out. split; [exact H1|exact H2].
Defined.

Lemma done_then_list_witness :
  let a := mkNote "aaaa0001" "write report" "2024-05-02T10:00:00" false None 1 in
  let b := mkNote "bbbb0002" "pay rent" "2024-05-03T10:00:00" false (Some ["home"]) 3 in
  let w := mkWorld {[ NOTES_FILE := dump_notes [a; b] ]} [] in
  let w' := (mark_done "bbbb0002" w).2 in
  exists pending all,
    (search_notes "" false w').1 = Ok pending /\
    (search_notes "" true w').1 = Ok all /\
    (forall n, n ∈ pending -> id n <> "bbbb0002") /\
    (exists n, n ∈ all /\ id n = "bbbb0002" /\ done n = true).
Proof.
  intros a b w.
  assert (typed_store w) as Hty by typed_by_computation.
  assert (NoDup (map id (load_notes w).1)) as Hnd.
  { assert ((load_notes w).1 = [a; b]) as -> by (vm_compute; reflexivity).
    cbn. repeat constructor; set_solver. }
  assert ((mark_done "bbbb0002" w).1 = true) as Hhit by (vm_compute; reflexivity).
  assert (round_trips (mark_loop "bbbb0002" (load_notes w).1).1) as Hrt
    by (vm_compute; reflexivity).
  exact (done_then_list w "bbbb0002" Hty Hnd Hhit Hrt).
Defined.

End Examples.
